(** * plank-progress-pal: the session timer, the session recorder and the
      30-day ranking, as written in the React components

    The development follows the components of the repository:
    - [JS]                 the JavaScript built-ins the components call
                           (number to string, [padStart], [slice], the stable
                           [sort], plain objects used as maps);
    - [PlankTimer]         src/components/PlankTimer.tsx;
    - [UserStats]          src/components/UserStats.tsx;
    - [Leaderboard]        src/components/Leaderboard.tsx;
    - [PlankDetailDialog]  src/components/PlankDetailDialog.tsx;
    - [Display], [Session], [Ranking]  the vocabulary of the properties;
    - [TimeFormat], [TimerFacts], [RankingFacts]  the properties.

    Events.  A handler runs in the render it was created in and queues
    setter calls; the component renders again with the calls applied in
    order ([PlankTimer.step]).  The one-second interval keeps the closure
    of the render in which it was set up.  A completion with its calls of
    the external service is one event: the answers of the service are part
    of the event.  A run of [captureSnapshot] is one event when the
    callback of [toBlob] runs before anything else happens, and two events
    when it is left pending: the drawing, and later the callback.

    Numbers.  Durations, counters and form inputs are whole numbers and are
    modelled in [Z]; the one place where the code divides two numbers and
    keeps the fraction (the percentile of [UserStats]) is modelled in
    [float], the IEEE 754 doubles of JavaScript, with their rounding
    division and product. *)

From Stdlib Require Import ZArith List String Ascii Bool Lia.
From Stdlib Require Import Permutation Sorted QArith Qround.
From Stdlib Require Import Floats Uint63.
Import ListNotations.

Local Open Scope Z_scope.

(* ====================================================================== *)
(** ** JavaScript built-ins                                                *)
(* ====================================================================== *)

Module JS.

Local Open Scope string_scope.
Local Open Scope Z_scope.

(** The character of a decimal digit [0..9]. *)
Definition digit_char (d : Z) : ascii :=
  ascii_of_nat (48 + Z.to_nat d).

(** Decimal digits of a non-negative integer, most significant first.
    [fuel] bounds the number of digits. *)
Fixpoint digits_from (fuel : nat) (n : Z) (acc : string) : string :=
  match fuel with
  | O => acc
  | S fuel' =>
      let acc' := String (digit_char (n mod 10)) acc in
      if n <? 10 then acc' else digits_from fuel' (n / 10) acc'
  end.

Definition digits (n : Z) : string :=
  digits_from (S (Z.to_nat (Z.log2 n))) n EmptyString.

(** [Number.prototype.toString()] (and the string conversion of template
    literals and of ["0" + s]) on an integral number below 1e21. *)
Definition Number_toString (n : Z) : string :=
  if n <? 0 then "-" ++ digits (- n) else digits n.

(** *** Numbers with a fraction *)




Section ToFixed.
(** [Number::toString] on a finite number at or beyond 1e21, where the
    text is in exponent notation. *)
Variable Number_toString_large : float -> string.

End ToFixed.

Fixpoint repeat_string (n : nat) (p : string) : string :=
  match n with
  | O => EmptyString
  | S k => p ++ repeat_string k p
  end.

(** [String.prototype.padStart(targetLength, padString)]: a string that is
    long enough, or an empty filler, gives the string back; otherwise the
    filler is repeated and cut to the missing length. *)
Definition padStart (targetLength : nat) (padString s : string) : string :=
  if (targetLength <=? String.length s)%nat then s
  else match padString with
       | EmptyString => s
       | _ =>
           let fillLen := (targetLength - String.length s)%nat in
           substring 0 fillLen (repeat_string fillLen padString) ++ s
       end.

(** [Math.floor(t / 60)] on a whole number [t]: division rounding down. *)
Definition floor_div (t d : Z) : Z := t / d.

(** The remainder operator [%] of JavaScript takes the sign of the
    dividend. *)
Definition rem (t d : Z) : Z := Z.rem t d.

(** [Array.prototype.slice(0, n)]. *)
Definition slice0 {A : Type} (n : nat) (l : list A) : list A := firstn n l.

(** [Array.prototype.sort(compareFn)].  The sort of an engine is stable
    (ECMAScript 2019), and the result of a stable sort is determined by the
    comparator, so it is modelled by insertion from the right: an element
    goes in front of the first one it does not have to follow. *)
Section Sort.
Context {A : Type} (compareFn : A -> A -> Z).

Fixpoint sort_insert (x : A) (l : list A) : list A :=
  match l with
  | [] => [x]
  | y :: l' =>
      if compareFn x y <=? 0 then x :: l else y :: sort_insert x l'
  end.

Definition Array_sort (l : list A) : list A :=
  fold_right sort_insert [] l.
End Sort.

(** [Array.prototype.map((e, i) => ...)], the callback also gets the
    index. *)
Fixpoint mapi_from {A B : Type} (i : Z) (f : A -> Z -> B) (l : list A)
  : list B :=
  match l with
  | [] => []
  | x :: l' => f x i :: mapi_from (i + 1) f l'
  end.

Definition Array_mapi {A B : Type} (f : A -> Z -> B) (l : list A) : list B :=
  mapi_from 0 f l.

(** [Array.prototype.findIndex], [-1] when no element passes. *)
Fixpoint findIndex_from {A : Type} (i : Z) (p : A -> bool) (l : list A) : Z :=
  match l with
  | [] => -1
  | x :: l' => if p x then i else findIndex_from (i + 1) p l'
  end.

Definition Array_findIndex {A : Type} (p : A -> bool) (l : list A) : Z :=
  findIndex_from 0 p l.

(** [Array.prototype.reduce((sum, d) => sum + d, 0)]. *)
Definition reduce_sum (l : list Z) : Z :=
  fold_left (fun sum d => sum + d) l 0.

(** [Math.max(...ds)] for a non-empty argument list.  (With no argument
    JavaScript answers -Infinity; the components only call it on groups
    that hold at least one duration, see [RankingFacts.stats_nonempty].) *)
Definition Math_max (ds : list Z) : Z :=
  match ds with
  | [] => 0
  | d :: ds' => fold_left Z.max ds' d
  end.

(** A plain object used as a map, [Record<string, V>].  The keys of the
    components are the user ids of the database (UUID text), which are
    neither array indices nor names of [Object.prototype] members, so a
    lookup of an absent key is [undefined] and [Object.entries] lists the
    keys in the order of their first assignment. *)
Definition Obj (V : Type) : Type := list (string * V).

Fixpoint Obj_get {V : Type} (o : Obj V) (k : string) : option V :=
  match o with
  | [] => None
  | (k', v) :: o' => if String.eqb k' k then Some v else Obj_get o' k
  end.

Fixpoint Obj_set {V : Type} (o : Obj V) (k : string) (v : V) : Obj V :=
  match o with
  | [] => [(k, v)]
  | (k', v') :: o' =>
      if String.eqb k' k then (k', v) :: o' else (k', v') :: Obj_set o' k v
  end.

Definition Object_entries {V : Type} (o : Obj V) : list (string * V) := o.

End JS.

(* ====================================================================== *)
(** ** src/components/PlankTimer.tsx                                       *)
(* ====================================================================== *)

Module PlankTimer.
Import JS.
Local Open Scope string_scope.
Local Open Scope Z_scope.
Set Implicit Arguments.

(** [formatTime]: both fields go through [padStart(2, "0")]. *)
Definition formatTime (t : Z) : string :=
  padStart 2 "0" (Number_toString (floor_div t 60))
    ++ ":" ++ padStart 2 "0" (Number_toString (rem t 60)).

Inductive Mode := stopwatch | timer.

Definition Mode_eqb (a b : Mode) : bool :=
  match a, b with
  | stopwatch, stopwatch | timer, timer => true
  | _, _ => false
  end.

(** A row of the [planks] table, as far as this component writes it. *)
Record PlankRow := mkPlankRow {
  id : Z;
  user_id : string;
  duration_s : Z;
  photos : list string
}.

Section Component.
(** A captured frame (the PNG blob handed over by [canvas.toBlob]). *)
Variable Blob : Type.

(** The [useState] cells of the component.  ([stream] only feeds the
    video element and is left out.) *)
Record State := mkState {
  useCamera : bool;
  mode : Mode;
  seconds : Z;
  initialSeconds : Z;
  inputMin : Z;
  inputSec : Z;
  isActive : bool;
  isCompleted : bool;
  vowCheat : bool;
  snapshots : list Blob
}.

Definition initial : State :=
  {| useCamera := false; mode := stopwatch; seconds := 0;
     initialSeconds := 0; inputMin := 0; inputSec := 0;
     isActive := false; isCompleted := false; vowCheat := false;
     snapshots := [] |}.

(** A call of a state setter.  [toggleUseCamera] is
    [setUseCamera(c => !c)] and [pushSnapshot blob] is
    [setSnapshots(cur => [...cur, blob].slice(0, 3))]. *)
Inductive Update :=
| setUseCamera (v : bool)
| toggleUseCamera
| setMode (m : Mode)
| setSeconds (v : Z)
| setInitialSeconds (v : Z)
| setInputMin (v : Z)
| setInputSec (v : Z)
| setIsActive (v : bool)
| setIsCompleted (v : bool)
| setVowCheat (v : bool)
| setSnapshots (v : list Blob)
| pushSnapshot (blob : Blob).

Definition apply_update (s : State) (u : Update) : State :=
  match u with
  | setUseCamera v =>
      mkState v (mode s) (seconds s) (initialSeconds s) (inputMin s)
        (inputSec s) (isActive s) (isCompleted s) (vowCheat s) (snapshots s)
  | toggleUseCamera =>
      mkState (negb (useCamera s)) (mode s) (seconds s) (initialSeconds s)
        (inputMin s) (inputSec s) (isActive s) (isCompleted s) (vowCheat s)
        (snapshots s)
  | setMode m =>
      mkState (useCamera s) m (seconds s) (initialSeconds s) (inputMin s)
        (inputSec s) (isActive s) (isCompleted s) (vowCheat s) (snapshots s)
  | setSeconds v =>
      mkState (useCamera s) (mode s) v (initialSeconds s) (inputMin s)
        (inputSec s) (isActive s) (isCompleted s) (vowCheat s) (snapshots s)
  | setInitialSeconds v =>
      mkState (useCamera s) (mode s) (seconds s) v (inputMin s)
        (inputSec s) (isActive s) (isCompleted s) (vowCheat s) (snapshots s)
  | setInputMin v =>
      mkState (useCamera s) (mode s) (seconds s) (initialSeconds s) v
        (inputSec s) (isActive s) (isCompleted s) (vowCheat s) (snapshots s)
  | setInputSec v =>
      mkState (useCamera s) (mode s) (seconds s) (initialSeconds s)
        (inputMin s) v (isActive s) (isCompleted s) (vowCheat s) (snapshots s)
  | setIsActive v =>
      mkState (useCamera s) (mode s) (seconds s) (initialSeconds s)
        (inputMin s) (inputSec s) v (isCompleted s) (vowCheat s) (snapshots s)
  | setIsCompleted v =>
      mkState (useCamera s) (mode s) (seconds s) (initialSeconds s)
        (inputMin s) (inputSec s) (isActive s) v (vowCheat s) (snapshots s)
  | setVowCheat v =>
      mkState (useCamera s) (mode s) (seconds s) (initialSeconds s)
        (inputMin s) (inputSec s) (isActive s) (isCompleted s) v (snapshots s)
  | setSnapshots v =>
      mkState (useCamera s) (mode s) (seconds s) (initialSeconds s)
        (inputMin s) (inputSec s) (isActive s) (isCompleted s) (vowCheat s) v
  | pushSnapshot blob =>
      mkState (useCamera s) (mode s) (seconds s) (initialSeconds s)
        (inputMin s) (inputSec s) (isActive s) (isCompleted s) (vowCheat s)
        (slice0 3 (snapshots s ++ [blob]))
  end.

(** The queued setter calls of one handler are applied in the order of
    the calls, and the component renders again with the result. *)
Definition apply_updates (s : State) (us : list Update) : State :=
  fold_left apply_update us s.

(** What the external service answers to the calls of [handleComplete]. *)
Record Backend := mkBackend {
  (** [supabase.auth.getUser()]: the id of the user, [None] on an error
      or when nobody is logged in. *)
  getUser : option string;
  (** [insert(...).select("id").limit(1)]: the id of the new row, [None]
      on an error or an empty answer. *)
  insertPlank : string -> Z -> option Z;
  (** [storage.upload(fileName, blob)]: the stored path, or the message
      of the error. *)
  upload : string -> Blob -> string + string;
  (** [update({ photos }).eq("id", plankId)]: [true] when there is no
      error. *)
  updatePhotos : Z -> list string -> bool
}.

(** What a handler does besides setting state: notifications and calls
    of the external service, each call with its answer. *)
Inductive Effect :=
| toast_error (msg : string)
| toast_success (msg : string)
| console_error (msg : string)
| db_insert (user : string) (duration : Z) (answer : option Z)
| storage_upload (fileName : string) (blob : Blob) (answer : string + string)
| db_update (plankId : Z) (paths : list string) (answer : bool).

(** The callback handed to [canvas.toBlob]: a blob is appended and the
    list cut to three, [null] is skipped.  The callback tests nothing
    else. *)
Definition toBlobCallback (blob : option Blob) : list Update :=
  match blob with
  | Some b => [pushSnapshot b]
  | None => []
  end.

(** [captureSnapshot] with its callback run at once: nothing without a
    mounted video element, nothing when [toBlob] hands over [null]. *)
Definition captureSnapshot (videoMounted : bool) (blob : option Blob)
  : list Update :=
  if negb videoMounted then [] else toBlobCallback blob.

(** [handleStart], run in the render [s]. *)
Definition handleStart (s : State) : list Update * list Effect :=
  if negb (vowCheat s) then
    ([], [toast_error "You must swear you won’t cheat before you start!"])
  else
    let total :=
      match mode s with
      | timer => inputMin s * 60 + inputSec s
      | stopwatch => 0
      end in
    if Mode_eqb (mode s) timer && (total <=? 0) then
      ([], [toast_error "Please set a positive timer."])
    else
      ((match mode s with
        | timer => [setInitialSeconds total; setSeconds total]
        | stopwatch => [setSeconds 0]
        end
        ++ [setSnapshots []; setIsActive true; setIsCompleted false])%list,
       []).

Definition handlePause : list Update := [setIsActive false].

Definition handleReset : list Update :=
  [setIsActive false; setIsCompleted false; setSeconds 0; setInputMin 0;
   setInputSec 0; setVowCheat false; setUseCamera false; setSnapshots []].

(** The upload loop of [handleComplete]: snapshot [i] goes to
    [<user>_<plankId>_<i>.png]; a failure is logged and notified, a
    success pushes the stored path; the loop goes on in both cases. *)
Fixpoint uploadSnapshots (be : Backend) (user : string) (plankId : Z)
    (i : Z) (rest : list Blob) (photoPaths : list string)
    (log : list Effect) : list string * list Effect :=
  match rest with
  | [] => (photoPaths, log)
  | blob :: rest' =>
      let fileName :=
        user ++ "_" ++ Number_toString plankId ++ "_"
             ++ Number_toString i ++ ".png" in
      let answer := upload be fileName blob in
      match answer with
      | inr message =>
          uploadSnapshots be user plankId (i + 1) rest' photoPaths
            (log ++ [storage_upload fileName blob answer;
                     console_error "Storage upload error:";
                     toast_error ("Could not upload photo. " ++ message)])%list
      | inl path =>
          uploadSnapshots be user plankId (i + 1) rest'
            (photoPaths ++ [path])%list
            (log ++ [storage_upload fileName blob answer])%list
      end
  end.

(** [handleComplete], run in the render [r] (the render whose closure
    the caller holds) against the answers [be]. *)
Definition handleComplete (r : State) (be : Backend)
  : list Update * list Effect :=
  let duration :=
    match mode r with
    | timer => initialSeconds r
    | stopwatch => seconds r
    end in
  let updates :=
    [setIsActive false; setIsCompleted true; setSeconds duration] in
  match getUser be with
  | None => (updates, [toast_error "You must be logged in."])
  | Some user =>
      let answer := insertPlank be user duration in
      match answer with
      | None =>
          (updates,
           [db_insert user duration answer; console_error "plankErr";
            toast_error "Could not save plank."])
      | Some plankId =>
          let '(photoPaths, log) :=
            uploadSnapshots be user plankId 0 (snapshots r) []
              [db_insert user duration answer] in
          let log' :=
            match photoPaths with
            | [] => log
            | _ :: _ =>
                let ok := updatePhotos be plankId photoPaths in
                (log ++ db_update plankId photoPaths ok ::
                   (if ok then []
                    else [console_error "Failed to attach photos to plank:"]))%list
            end in
          (updates, (log' ++ [toast_success "Plank saved!"])%list)
      end
  end.

(** The order in which React applies the result of the [setSeconds]
    updater of the interval and the setter calls [handleComplete] makes
    from inside that updater.  The updater runs either while React
    renders (its own result first, the nested calls after it) or at once
    inside [setSeconds] (the nested calls may then be queued first). *)
Inductive UpdaterOrder := updater_first | nested_first.

(** One firing of the one-second interval, set up in the render [r]:
    [setSeconds(s => ...)] is applied to the current value [s]. *)
Definition onTick (r : State) (order : UpdaterOrder) (be : Backend)
    (s : Z) : list Update * list Effect :=
  match mode r with
  | timer =>
      if s <=? 1 then
        let '(nested, effects) := handleComplete r be in
        (match order with
         | updater_first => setSeconds 0 :: nested
         | nested_first => (nested ++ [setSeconds 0])%list
         end, effects)
      else ([setSeconds (s - 1)], [])
  | stopwatch => ([setSeconds (s + 1)], [])
  end.

(** What can happen to a mounted component. *)
Inductive Event :=
| click_mode (m : Mode)             (* a mode tab *)
| toggle_camera                     (* the camera switch *)
| camera_denied                     (* [getUserMedia] was rejected *)
| check_vow (v : bool)              (* the no-cheating checkbox *)
| input_min (v : Z)
| input_sec (v : Z)
| click_start
| click_pause
| click_reset                       (* "Reset" or "New plank" *)
| click_save (be : Backend)         (* "Save plank" *)
| tick (order : UpdaterOrder) (be : Backend)
| capture (blob : option Blob)      (* [captureSnapshot], callback at once *)
| draw (blob : option Blob)         (* [captureSnapshot], callback pending *)
| deliver (i : nat).                (* the pending callback number [i] runs *)

(** Whether the markup rendered from [s] offers the control of a user
    event; the two interval events are governed by their effects.  A run
    of [captureSnapshot] comes from the effect that runs it once and then
    every ten seconds, which is set up while the timer is active and the
    camera is on.  [toBlob] hands its
    blob over asynchronously: [capture] is a run whose callback comes
    before anything else happens, [draw] is a run whose callback is left
    pending, and [deliver i] is the pending callback number [i] that runs,
    whatever the state is by then: nothing in the component cancels a
    callback or checks [isActive] inside it. *)
Definition offered (s : State) (e : Event) : bool :=
  match e with
  | click_mode _ => negb (isCompleted s)
  | toggle_camera => negb (isCompleted s) && negb (isActive s)
  | camera_denied => true
  | check_vow _ => negb (isCompleted s) && negb (isActive s)
  | input_min _ | input_sec _ =>
      negb (isCompleted s) && Mode_eqb (mode s) timer && negb (isActive s)
  | click_start => negb (isCompleted s) && negb (isActive s)
  | click_pause => negb (isCompleted s) && isActive s
  | click_reset =>
      isCompleted s
      || match mode s with
         | stopwatch => 0 <? seconds s
         | timer =>
             ((0 <? inputMin s) || (0 <? inputSec s)) && negb (isActive s)
         end
  | click_save _ =>
      negb (isCompleted s) && Mode_eqb (mode s) stopwatch
      && (0 <? seconds s) && negb (isActive s)
  | tick _ _ => true
  | capture _ | draw _ => isActive s && useCamera s
  | deliver _ => true
  end.

Fixpoint remove_nth {A : Type} (i : nat) (l : list A) : list A :=
  match l, i with
  | [], _ => []
  | _ :: l', O => l'
  | x :: l', S i' => x :: remove_nth i' l'
  end.

(** A mounted component: the state of the last render, the render whose
    closure the running one-second interval holds, if one runs, and the
    blobs of the calls of [toBlob] whose callback has not run yet, in the
    order of the calls. *)
Record Component := mkComponent {
  render : State;
  interval : option State;
  pending : list (option Blob)
}.

Definition mount : Component :=
  {| render := initial; interval := None; pending := [] |}.

(** The effect with dependencies [isActive, mode]: when one of them
    changed, the old interval is cleared, and a new one is set up, over
    the new render, if the timer is active. *)
Definition rearm (prev next : State) (old : option State) : option State :=
  if Bool.eqb (isActive prev) (isActive next)
     && Mode_eqb (mode prev) (mode next)
  then old
  else if isActive next then Some next else None.

Definition handle (c : Component) (e : Event) : list Update * list Effect :=
  let s := render c in
  match e with
  | tick order be =>
      match interval c with
      | Some r => onTick r order be (seconds s)
      | None => ([], [])
      end
  | _ =>
      if negb (offered s e) then ([], [])
      else
        match e with
        | click_mode m => (if isActive s then [] else [setMode m], [])
        | toggle_camera => ([toggleUseCamera], [])
        | camera_denied =>
            ([setUseCamera false], [toast_error "Camera access denied."])
        | check_vow v => ([setVowCheat v], [])
        | input_min v => ([setInputMin v], [])
        | input_sec v => ([setInputSec v], [])
        | click_start => handleStart s
        | click_pause => (handlePause, [])
        | click_reset => (handleReset, [])
        | click_save be => handleComplete s be
        | tick _ _ => ([], [])
        | capture blob =>
            (captureSnapshot (useCamera s && negb (isCompleted s)) blob, [])
        | draw _ => ([], [])
        | deliver i =>
            (match nth_error (pending c) i with
             | Some blob => toBlobCallback blob
             | None => []
             end, [])
        end
  end.

(** The pending callbacks after an event: a run of [captureSnapshot] over
    a mounted video element adds one, a delivery removes the one that
    ran. *)
Definition callbacks (c : Component) (e : Event) : list (option Blob) :=
  match e with
  | draw blob =>
      if offered (render c) e
         && (useCamera (render c) && negb (isCompleted (render c)))
      then (pending c ++ [blob])%list
      else pending c
  | deliver i => remove_nth i (pending c)
  | _ => pending c
  end.

Definition step (c : Component) (e : Event) : Component * list Effect :=
  let '(updates, effects) := handle c e in
  let next := apply_updates (render c) updates in
  ({| render := next; interval := rearm (render c) next (interval c);
      pending := callbacks c e |},
   effects).

Fixpoint run (c : Component) (events : list Event)
  : Component * list Effect :=
  match events with
  | [] => (c, [])
  | e :: events' =>
      let '(c', effects) := step c e in
      let '(c'', effects') := run c' events' in
      (c'', (effects ++ effects')%list)
  end.

(** The rows of [planks] that the logged answers leave behind: an
    accepted insert adds a row without photos, an accepted update sets
    the photos of the row with that id. *)
Fixpoint set_photos (plankId : Z) (paths : list string)
    (rows : list PlankRow) : list PlankRow :=
  match rows with
  | [] => []
  | row :: rows' =>
      (if id row =? plankId
       then mkPlankRow (id row) (user_id row) (duration_s row) paths
       else row) :: set_photos plankId paths rows'
  end.

Definition persist (rows : list PlankRow) (e : Effect) : list PlankRow :=
  match e with
  | db_insert user duration (Some plankId) =>
      (rows ++ [mkPlankRow plankId user duration []])%list
  | db_update plankId paths true => set_photos plankId paths rows
  | _ => rows
  end.

Definition persisted (log : list Effect) : list PlankRow :=
  fold_left persist log [].

End Component.

Arguments initial {Blob}.
Arguments mount {Blob}.
Arguments setUseCamera {Blob}.
Arguments toggleUseCamera {Blob}.
Arguments setMode {Blob}.
Arguments setSeconds {Blob}.
Arguments setInitialSeconds {Blob}.
Arguments setInputMin {Blob}.
Arguments setInputSec {Blob}.
Arguments setIsActive {Blob}.
Arguments setIsCompleted {Blob}.
Arguments setVowCheat {Blob}.
Arguments handlePause {Blob}.
Arguments handleReset {Blob}.
Arguments toast_error {Blob}.
Arguments toast_success {Blob}.
Arguments console_error {Blob}.
Arguments db_insert {Blob}.
Arguments db_update {Blob}.
Arguments click_mode {Blob}.
Arguments toggle_camera {Blob}.
Arguments camera_denied {Blob}.
Arguments check_vow {Blob}.
Arguments input_min {Blob}.
Arguments input_sec {Blob}.
Arguments click_start {Blob}.
Arguments click_pause {Blob}.
Arguments click_reset {Blob}.
Arguments deliver {Blob} i.

Unset Implicit Arguments.
End PlankTimer.

(* ====================================================================== *)
(** ** The rows fetched for the 30-day ranking                             *)
(* ====================================================================== *)

Module Supabase.
(** A row of [from("planks").select("user_id, duration_s")], already
    restricted by the query to the trailing 30 days. *)
Record Plank := mkPlank {
  user_id : string;
  duration_s : Z
}.

(** The answer to a query: an error, or the rows ([data] may be null). *)
Inductive Answer :=
| failed
| rows (data : option (list Plank)).
End Supabase.

(* ====================================================================== *)
(** ** src/components/UserStats.tsx                                        *)
(* ====================================================================== *)

Module UserStats.
Import JS.
Local Open Scope string_scope.
Local Open Scope Z_scope.

Definition formatTime (sec : Z) : string :=
  let m := floor_div sec 60 in
  let s := rem sec 60 in
  Number_toString m ++ ":"
    ++ (if s <? 10 then "0" ++ Number_toString s else Number_toString s).

(** [x || 0] on a number that may be undefined. *)
Definition or_zero (x : option Z) : Z :=
  match x with
  | Some n => if n =? 0 then 0 else n
  | None => 0
  end.

(** [totals]: the total duration per user. *)
Definition totals (planks : list Supabase.Plank) : Obj Z :=
  fold_left
    (fun totals p =>
       Obj_set totals (Supabase.user_id p)
         (or_zero (Obj_get totals (Supabase.user_id p))
          + Supabase.duration_s p))
    planks [].

Record Entry := mkEntry {
  user_id : string;
  total_time : Z
}.

(** [sorted]: the entries of [totals], largest total first. *)
Definition sorted (planks : list Supabase.Plank) : list Entry :=
  Array_sort (fun a b => total_time b - total_time a)
    (map (fun '(user_id, total_time) => mkEntry user_id total_time)
       (Object_entries (totals planks))).




End UserStats.

(* ====================================================================== *)
(** ** src/components/Leaderboard.tsx                                      *)
(* ====================================================================== *)

Module Leaderboard.
Import JS.
Local Open Scope string_scope.
Local Open Scope Z_scope.

Definition formatTime (totalSeconds : Z) : string :=
  let minutes := floor_div totalSeconds 60 in
  let seconds := rem totalSeconds 60 in
  Number_toString minutes ++ ":"
    ++ (if seconds <? 10 then "0" ++ Number_toString seconds
        else Number_toString seconds).

(** [stats]: the durations of each user, in the order of the rows.
    ([stats[k] = stats[k] || []] followed by [stats[k].push(d)].) *)
Definition stats (planks : list Supabase.Plank) : Obj (list Z) :=
  fold_left
    (fun stats p =>
       let k := Supabase.user_id p in
       let durations :=
         match Obj_get stats k with Some ds => ds | None => [] end in
       Obj_set stats k (durations ++ [Supabase.duration_s p])%list)
    planks [].

(** The entries of the two boards before the profile fields are merged
    in. *)
Module Best.
Record Entry := mkEntry {
  user_id : string;
  best_time : Z;
  rank : Z
}.
End Best.

Module Total.
Record Entry := mkEntry {
  user_id : string;
  total_time : Z;
  rank : Z
}.
End Total.

Definition bestArr (planks : list Supabase.Plank) : list Best.Entry :=
  Array_mapi (fun e i => Best.mkEntry (fst e) (snd e) (i + 1))
    (Array_sort (fun a b => snd b - snd a)
       (map (fun '(user_id, durations) => (user_id, Math_max durations))
          (Object_entries (stats planks)))).

Definition totalArr (planks : list Supabase.Plank) : list Total.Entry :=
  Array_mapi (fun e i => Total.mkEntry (fst e) (snd e) (i + 1))
    (Array_sort (fun a b => snd b - snd a)
       (map (fun '(user_id, durations) => (user_id, reduce_sum durations))
          (Object_entries (stats planks)))).

(** [loadLeaderboard] up to the ranked arrays: a failed query (or null
    rows, on which [forEach] throws) is notified and sets nothing. *)
Definition loadLeaderboard (answer : Supabase.Answer)
    (prev : list Best.Entry * list Total.Entry)
  : (list Best.Entry * list Total.Entry) * list string :=
  match answer with
  | Supabase.rows (Some planks) => ((bestArr planks, totalArr planks), [])
  | _ => (prev, ["Could not load leaderboard."])
  end.
End Leaderboard.

(* ====================================================================== *)
(** ** src/components/PlankDetailDialog.tsx                                *)
(* ====================================================================== *)

Module PlankDetailDialog.
Import JS.
Local Open Scope string_scope.
Local Open Scope Z_scope.

Definition formatTime (t : Z) : string :=
  let m := floor_div t 60 in
  let s := rem t 60 in
  Number_toString m ++ ":"
    ++ (if s <? 10 then "0" ++ Number_toString s else Number_toString s).
End PlankDetailDialog.

(* ====================================================================== *)
(** * The vocabulary of the properties                                     *)
(* ====================================================================== *)

(** ** The display of a duration *)

Module Display.
Import JS.
Local Open Scope string_scope.
Local Open Scope Z_scope.

(** The display the specification words: minutes as a plain decimal
    number, a colon, seconds as exactly two decimal digits. *)
Definition two_digits (s : Z) : string :=
  String (digit_char (s / 10)) (String (digit_char (s mod 10)) EmptyString).

Definition minutes_seconds (t : Z) : string :=
  Number_toString (t / 60) ++ ":" ++ two_digits (t mod 60).

End Display.

(** ** Sessions: phases, logs, provenance of the frames *)

Module Session.
Import JS PlankTimer.
Local Open Scope string_scope.
Local Open Scope Z_scope.

(** The phases the specification names, read off the state cells: the
    component has no cell of its own for "paused", a paused session is
    one that is neither active nor completed and has time on its clock. *)
Inductive Phase := Idle | Active | Paused | Completed.

Definition phase {Blob : Type} (s : State Blob) : Phase :=
  if isCompleted s then Completed
  else if isActive s then Active
  else if seconds s =? 0 then Idle
  else Paused.

(** The frames a list of captures hands over. *)
Definition delivered {Blob : Type} (frames : list (option Blob)) : list Blob :=
  flat_map (fun f => match f with Some b => [b] | None => [] end) frames.

(** "Keep the last [n]", the eviction the specification words. *)
Definition last_n {A : Type} (n : nat) (l : list A) : list A :=
  skipn (List.length l - n) l.

(** The file name of snapshot [i] of a plank. *)
Definition snapshot_file (user : string) (plankId i : Z) : string :=
  user ++ "_" ++ Number_toString plankId ++ "_" ++ Number_toString i ++ ".png".

(** The answers the storage gives when the snapshots are uploaded one
    after the other, starting at index [i]. *)
Fixpoint upload_answers {Blob : Type} (be : Backend Blob) (user : string)
    (plankId i : Z) (blobs : list Blob) : list (string + string) :=
  match blobs with
  | [] => []
  | blob :: blobs' =>
      upload be (snapshot_file user plankId i) blob
      :: upload_answers be user plankId (i + 1) blobs'
  end.

Definition stored_paths (answers : list (string + string)) : list string :=
  flat_map (fun a => match a with inl path => [path] | inr _ => [] end)
    answers.

Definition failures (answers : list (string + string)) : nat :=
  List.length (filter (fun a => match a with inl _ => false | inr _ => true end)
                 answers).

(** Readings of a log of effects. *)
Definition uploaded_blobs {Blob : Type} (log : list (Effect Blob))
  : list Blob :=
  flat_map (fun e => match e with
                     | storage_upload _ blob _ => [blob]
                     | _ => []
                     end) log.

Definition is_upload_failure_toast {Blob : Type} (e : Effect Blob) : bool :=
  match e with
  | toast_error msg => prefix "Could not upload photo. " msg
  | _ => false
  end.

Definition upload_failure_toasts {Blob : Type} (log : list (Effect Blob))
  : nat :=
  List.length (filter is_upload_failure_toast log).

Definition photo_updates {Blob : Type} (log : list (Effect Blob))
  : list (Z * list string * bool) :=
  flat_map (fun e => match e with
                     | db_update plankId paths answer =>
                         [(plankId, paths, answer)]
                     | _ => []
                     end) log.

(** The duration [handleComplete] works with in the render [r]. *)
Definition duration_of {Blob : Type} (r : State Blob) : Z :=
  match mode r with
  | timer => initialSeconds r
  | stopwatch => seconds r
  end.

(** What the upload loop logs for the snapshots from index [i] on. *)
Fixpoint upload_log {Blob : Type} (be : Backend Blob) (user : string)
    (plankId i : Z)
    (blobs : list Blob) : list (Effect Blob) :=
  match blobs with
  | [] => []
  | blob :: blobs' =>
      let answer := upload be (snapshot_file user plankId i) blob in
      (storage_upload (snapshot_file user plankId i) blob answer
       :: match answer with
          | inl _ => []
          | inr message =>
              [console_error "Storage upload error:";
               toast_error ("Could not upload photo. " ++ message)]
          end)
      ++ upload_log be user plankId (i + 1) blobs'
  end%list.

(** The timer becomes Active in the step of [e]. *)
Definition activates {Blob : Type} (c : Component Blob) (e : Event Blob)
  : bool :=
  negb (isActive (render c)) && isActive (render (fst (step c e))).

(** A run of [captureSnapshot] that finds the video element. *)
Definition draws {Blob : Type} (c : Component Blob) (e : Event Blob) : bool :=
  offered (render c) e
  && (useCamera (render c) && negb (isCompleted (render c))).

(** The frame the component is handed in the step of [e]: by a capture
    whose callback runs at once, or by a pending callback that runs. *)
Definition arrived {Blob : Type} (c : Component Blob) (e : Event Blob)
  : list Blob :=
  match e with
  | capture (Some blob) => if draws c e then [blob] else []
  | deliver i =>
      match nth_error (pending c) i with
      | Some (Some blob) => [blob]
      | _ => []
      end
  | _ => []
  end.

(** The frame that is drawn in the step of [e], by a run of
    [captureSnapshot]. *)
Definition drawn {Blob : Type} (c : Component Blob) (e : Event Blob)
  : list Blob :=
  match e with
  | capture (Some blob) | draw (Some blob) =>
      if draws c e then [blob] else []
  | _ => []
  end.

(** The frames handed over since the timer last became Active, along a
    run of events. *)
Definition frames_after {Blob : Type} (c : Component Blob) (e : Event Blob)
    (frames : list Blob) : list Blob :=
  if activates c e then [] else (frames ++ arrived c e)%list.

Fixpoint frames_since_activation {Blob : Type} (c : Component Blob)
    (events : list (Event Blob)) (frames : list Blob) : list Blob :=
  match events with
  | [] => frames
  | e :: events' =>
      frames_since_activation (fst (step c e)) events' (frames_after c e frames)
  end.

(** The frames drawn since the timer last became Active, along a run of
    events. *)
Fixpoint drawn_since_activation {Blob : Type} (c : Component Blob)
    (events : list (Event Blob)) (frames : list Blob) : list Blob :=
  match events with
  | [] => frames
  | e :: events' =>
      drawn_since_activation (fst (step c e)) events'
        (if activates c e then [] else (frames ++ drawn c e)%list)
  end.

(** The frames whose callback has not run yet. *)
Definition in_flight {Blob : Type} (c : Component Blob) : list Blob :=
  delivered (pending c).

(** The frames that were in flight when the timer last became Active,
    followed by the frames drawn since then. *)
Definition eligible_after {Blob : Type} (c : Component Blob) (e : Event Blob)
    (frames : list Blob) : list Blob :=
  if activates c e then in_flight (fst (step c e))
  else (frames ++ drawn c e)%list.

Fixpoint eligible_since_activation {Blob : Type} (c : Component Blob)
    (events : list (Event Blob)) (frames : list Blob) : list Blob :=
  match events with
  | [] => frames
  | e :: events' =>
      eligible_since_activation (fst (step c e)) events'
        (eligible_after c e frames)
  end.

(** The session stays Active all along a run of events. *)
Fixpoint stays_active {Blob : Type} (c : Component Blob)
    (events : list (Event Blob)) : Prop :=
  match events with
  | [] => isActive (render c) = true
  | e :: events' =>
      isActive (render c) = true /\ stays_active (fst (step c e)) events'
  end.

(** Every retained snapshot, of the current render and of the render the
    interval holds, is one of [frames]. *)
Definition retained_from {Blob : Type} (c : Component Blob)
    (frames : list Blob) : Prop :=
  incl (snapshots (render c)) frames
  /\ forall r, interval c = Some r -> incl (snapshots r) frames.

(** Every retained snapshot and every frame in flight is one of
    [frames]. *)
Definition eligible_from {Blob : Type} (c : Component Blob)
    (frames : list Blob) : Prop :=
  retained_from c frames /\ incl (in_flight c) frames.

(** A countdown to the target [T] is running. *)
Definition counting_down {Blob : Type} (T : Z) (c : Component Blob) : Prop :=
  isActive (render c) = true /\ isCompleted (render c) = false
  /\ exists r, interval c = Some r /\ mode r = timer /\ initialSeconds r = T.

(** A session just started with the camera on. *)
Definition started_with_camera : Component nat :=
  fst (run mount [check_vow true; toggle_camera; click_start]).

(** A session paused with one retained frame. *)
Definition paused_with_a_frame : Component nat :=
  fst (run started_with_camera [capture (Some 1%nat); click_pause]).

(** Two activations with the camera on, each of which draws a frame as it
    begins.  The callback of the first frame is still pending when the
    session is paused and started again; both callbacks run during the
    second activation, which is paused after a second. *)
Definition restarted_with_a_pending_frame (be : Backend nat)
  : list (Event nat) :=
  [check_vow true; toggle_camera;
   click_start; draw (Some 1%nat); click_pause;
   click_start; draw (Some 2%nat); deliver 0; deliver 0;
   tick updater_first be; click_pause].

(** A storage that only accepts the second snapshot. *)
Definition second_upload_only : Backend nat :=
  mkBackend (Some "u1") (fun _ _ => Some 7)
    (fun fileName blob =>
       if Nat.eqb blob 2 then inl fileName else inr "storage is down")
    (fun _ _ => true).

Definition three_snapshots : State nat :=
  mkState true stopwatch 25 0 0 0 false false true [1; 2; 3]%nat.

(** A countdown of two seconds, ready to be started. *)
Definition two_second_countdown : Component nat :=
  fst (run mount [check_vow true; click_mode timer; input_sec 2]).

(** A session paused on its first second. *)
Definition paused_after_one_second : Component nat :=
  fst (run mount
         [check_vow true; click_start;
          tick updater_first (mkBackend None (fun _ _ => None)
                                (fun _ _ => inr "offline") (fun _ _ => false));
          click_pause]).

End Session.

(** ** Rankings *)

Module Ranking.
Import JS.
Local Open Scope Z_scope.

(** The distinct identities of a collection of rows. *)
Definition identities (planks : list Supabase.Plank) : list string :=
  nodup string_dec (map Supabase.user_id planks).

(** The ranks 1, 2, ..., n. *)
Definition ranks_upto (n : nat) : list Z := map Z.of_nat (seq 1 n).

(** A list of numbers that never goes up. *)
Definition descending (values : list Z) : Prop :=
  StronglySorted (fun a b => b <= a) values.

(** The sum of all durations of the rows. *)
Definition total_duration (planks : list Supabase.Plank) : Z :=
  fold_right (fun p sum => Supabase.duration_s p + sum) 0 planks.

Definition sum_list (values : list Z) : Z :=
  fold_right Z.add 0 values.

Definition keys {V : Type} (o : Obj V) : list string := map fst o.

(** The rank [fetchRank] reads off a sorted list: the index of the entry
    of [uid], plus one. *)
Definition rank_in (sorted : list UserStats.Entry) (uid : string) : Z :=
  Array_findIndex (fun e => String.eqb (UserStats.user_id e) uid) sorted + 1.








(** The groups of the two boards with their aggregate, in grouping order. *)
Definition total_groups (planks : list Supabase.Plank) : list (string * Z) :=
  map (fun g => (fst g, reduce_sum (snd g)))
    (Object_entries (Leaderboard.stats planks)).

Definition best_groups (planks : list Supabase.Plank) : list (string * Z) :=
  map (fun g => (fst g, Math_max (snd g)))
    (Object_entries (Leaderboard.stats planks)).

(** What the specification asks of the ranked output [out] computed from
    the groups [groups] (identity and aggregate value, in grouping order)
    of the identities [ids]. *)
Record ranking_ok {B : Type} (uid : B -> string) (value rank : B -> Z)
    (groups : list (string * Z)) (ids : list string) (out : list B)
  : Prop := {
  (** the ranks read 1, 2, ..., N in output order *)
  ranks_in_order : map rank out = ranks_upto (List.length ids);
  (** the output is sorted descending by aggregate value *)
  values_descending : descending (map value out);
  (** one entry for each identity, *)
  one_entry_each : Permutation (map uid out) ids;
  (** which carries the aggregate of its group *)
  entries_are_groups :
    Permutation (map (fun e => (uid e, value e)) out) groups;
  (** a larger aggregate has a smaller rank *)
  larger_value_first :
    forall a b, In a out -> In b out -> value b < value a -> rank a < rank b;
  (** the entries of one aggregate value come in grouping order *)
  ties_in_grouping_order :
    forall v, map uid (filter (fun e => value e =? v) out)
              = map fst (filter (fun g => snd g =? v) groups)
}.

(** The comparator [(a, b) => key(b) - key(a)] and the order it sorts
    into. *)
Definition by_key_desc {A : Type} (key : A -> Z) (a b : A) : Z :=
  key b - key a.

Definition key_ge {A : Type} (key : A -> Z) (a b : A) : Prop :=
  key b <= key a.

(** The sum of a measure of the values of an object. *)
Definition measure {V : Type} (m : V -> Z) (o : Obj V) : Z :=
  sum_list (map (fun e => m (snd e)) o).

(** The grouping steps of the two components, from any object. *)
Definition totals_from (o : Obj Z) (planks : list Supabase.Plank) : Obj Z :=
  fold_left
    (fun totals p =>
       Obj_set totals (Supabase.user_id p)
         (UserStats.or_zero (Obj_get totals (Supabase.user_id p))
          + Supabase.duration_s p))
    planks o.

Definition stats_from (o : Obj (list Z)) (planks : list Supabase.Plank)
  : Obj (list Z) :=
  fold_left
    (fun stats p =>
       let k := Supabase.user_id p in
       let durations :=
         match Obj_get stats k with Some ds => ds | None => [] end in
       Obj_set stats k (durations ++ [Supabase.duration_s p])%list)
    planks o.

(** The last two steps of a board: sort the groups by aggregate, largest
    first, and number them. *)
Definition board {B : Type} (mk : string * Z -> Z -> B)
    (groups : list (string * Z)) : list B :=
  Array_mapi mk (Array_sort (fun a b => snd b - snd a) groups).

End Ranking.

(* ====================================================================== *)
(** * Properties                                                           *)
(* ====================================================================== *)

(** ** Decimal rendering and the time formatters *)

Module TimeFormat.
Import JS.
Local Open Scope string_scope.
Local Open Scope Z_scope.
Import Display.

Lemma digits_from_grows fuel : forall n acc,
  (String.length acc <= String.length (digits_from fuel n acc))%nat.
Proof.
  induction fuel as [|fuel IH]; intros n acc; simpl; [lia|].
  destruct (n <? 10); simpl; [lia|].
  specialize (IH (n / 10) (String (digit_char (n mod 10)) acc)).
  simpl in IH. lia.
Qed.

Lemma digits_one n :
  0 <= n < 10 -> digits n = String (digit_char n) EmptyString.
Proof.
  intros Hn. unfold digits. simpl.
  replace (n <? 10) with true by (symmetry; apply Z.ltb_lt; lia).
  now rewrite Z.mod_small by lia.
Qed.

Lemma log2_ten n : 10 <= n -> 3 <= Z.log2 n.
Proof.
  intros Hn. change 3 with (Z.log2 8). apply Z.log2_le_mono. lia.
Qed.

Lemma digits_two n : 10 <= n < 100 -> digits n = two_digits n.
Proof.
  intros Hn. unfold digits, two_digits.
  pose proof (log2_ten n (proj1 Hn)) as Hlog.
  destruct (Z.to_nat (Z.log2 n)) as [|fuel] eqn:Hfuel; [lia|].
  cbn [digits_from].
  replace (n <? 10) with false by (symmetry; apply Z.ltb_ge; lia).
  replace (n / 10 <? 10) with true
    by (symmetry; apply Z.ltb_lt; apply Z.div_lt_upper_bound; lia).
  rewrite (Z.mod_small (n / 10)); [reflexivity|].
  split; [apply Z.div_pos; lia | apply Z.div_lt_upper_bound; lia].
Qed.

Lemma digits_long n : 10 <= n -> (2 <= String.length (digits n))%nat.
Proof.
  intros Hn. unfold digits.
  pose proof (log2_ten n Hn) as Hlog.
  destruct (Z.to_nat (Z.log2 n)) as [|fuel] eqn:Hfuel; [lia|].
  cbn [digits_from].
  replace (n <? 10) with false by (symmetry; apply Z.ltb_ge; lia).
  cbn [digits_from].
  destruct (n / 10 <? 10); [simpl; lia|].
  etransitivity; [|apply digits_from_grows]. simpl. lia.
Qed.

(** The decimal form of a positive number starts with a digit from 1 to
    9: there is no padding in front. *)
Lemma digits_from_leading fuel : forall n acc,
  0 < n < 2 ^ Z.of_nat fuel ->
  exists d rest,
    1 <= d <= 9 /\ digits_from fuel n acc = String (digit_char d) rest.
Proof.
  induction fuel as [|fuel IH]; intros n acc Hn.
  - cbn in Hn. lia.
  - cbn [digits_from]. destruct (Z.ltb_spec n 10) as [Hlt|Hge].
    + exists n, acc. rewrite Z.mod_small by lia. split; [lia | reflexivity].
    + apply IH. rewrite Nat2Z.inj_succ, Z.pow_succ_r in Hn by lia.
      split; [apply Z.div_str_pos; lia|].
      apply Z.div_lt_upper_bound; lia.
Qed.

Lemma digits_leading n :
  0 < n -> exists d rest, 1 <= d <= 9 /\ digits n = String (digit_char d) rest.
Proof.
  intros Hn. apply digits_from_leading.
  destruct (Z.log2_spec n Hn) as [_ Hhi].
  pose proof (Z.log2_nonneg n) as Hlog.
  replace (Z.of_nat (S (Z.to_nat (Z.log2 n)))) with (Z.succ (Z.log2 n)) by lia.
  lia.
Qed.

Lemma toString_nonneg n : 0 <= n -> Number_toString n = digits n.
Proof.
  intros Hn. unfold Number_toString.
  now replace (n <? 0) with false by (symmetry; apply Z.ltb_ge; lia).
Qed.

(** [padStart(2, "0")] on the decimal form of a number below ten puts one
    zero in front, and leaves a longer decimal form alone. *)
Lemma pad_one n : 0 <= n < 10 ->
  padStart 2 "0" (Number_toString n) = "0" ++ Number_toString n.
Proof.
  intros Hn. rewrite toString_nonneg, digits_one by lia. reflexivity.
Qed.

Lemma pad_long n : 10 <= n ->
  padStart 2 "0" (Number_toString n) = Number_toString n.
Proof.
  intros Hn. rewrite toString_nonneg by lia. unfold padStart.
  pose proof (digits_long n Hn) as Hlen.
  now replace (2 <=? String.length (digits n))%nat with true
    by (symmetry; apply Nat.leb_le; exact Hlen).
Qed.

Lemma seconds_field s : 0 <= s < 60 ->
  (if s <? 10 then "0" ++ Number_toString s else Number_toString s)
  = two_digits s.
Proof.
  intros Hs. rewrite toString_nonneg by lia.
  destruct (Z.ltb_spec s 10) as [Hlt|Hge].
  - rewrite digits_one by lia. unfold two_digits.
    now rewrite Z.div_small, Z.mod_small by lia.
  - apply digits_two. lia.
Qed.

Lemma padded_seconds_field s : 0 <= s < 60 ->
  padStart 2 "0" (Number_toString s) = two_digits s.
Proof.
  intros Hs. rewrite <- seconds_field by exact Hs.
  destruct (Z.ltb_spec s 10) as [Hlt|Hge].
  - apply pad_one. lia.
  - apply pad_long. exact Hge.
Qed.

Lemma rem_seconds t : 0 <= t -> rem t 60 = t mod 60 /\ 0 <= t mod 60 < 60.
Proof.
  intros Ht. unfold rem. rewrite Z.rem_mod_nonneg by lia.
  split; [reflexivity | apply Z.mod_pos_bound; lia].
Qed.

Lemma UserStats_formatTime_spec t :
  0 <= t -> UserStats.formatTime t = minutes_seconds t.
Proof.
  intros Ht. destruct (rem_seconds t Ht) as [Hrem Hs].
  unfold UserStats.formatTime, minutes_seconds, floor_div.
  cbv zeta. rewrite Hrem, seconds_field by exact Hs. reflexivity.
Qed.

Lemma views_same_text t :
  Leaderboard.formatTime t = UserStats.formatTime t
  /\ PlankDetailDialog.formatTime t = UserStats.formatTime t.
Proof. split; reflexivity. Qed.

Lemma PlankTimer_formatTime_spec t :
  0 <= t ->
  PlankTimer.formatTime t
  = (if t <? 600 then "0" else EmptyString) ++ minutes_seconds t.
Proof.
  intros Ht. destruct (rem_seconds t Ht) as [Hrem Hs].
  unfold PlankTimer.formatTime, minutes_seconds, floor_div.
  rewrite Hrem, (padded_seconds_field (t mod 60) Hs).
  destruct (Z.ltb_spec t 600) as [Hlt|Hge].
  - rewrite pad_one; [reflexivity|].
    split; [apply Z.div_pos; lia | apply Z.div_lt_upper_bound; lia].
  - rewrite pad_long; [reflexivity|].
    apply Z.div_le_lower_bound; lia.
Qed.

(** C2, as the code has it.  On every duration [t >= 0] of whole seconds
    the formatters of the statistics, leaderboard and plank-detail views
    return minutes (plain decimal), a colon and two-digit seconds, and
    agree with each other; the formatter of the session timer pads the
    minutes to two digits as well, so it puts one more ["0"] in front
    exactly below 600 seconds.  From one minute on the plain decimal
    minutes start with a digit from 1 to 9.  The four examples read
    "0:00", "1:05", "9:59", "60:00" in the three views and "00:00",
    "01:05", "09:59", "60:00" in the session timer. *)
Theorem formatTime_views :
  (forall t, 0 <= t ->
     UserStats.formatTime t = minutes_seconds t
     /\ Leaderboard.formatTime t = minutes_seconds t
     /\ PlankDetailDialog.formatTime t = minutes_seconds t
     /\ PlankTimer.formatTime t
        = (if t <? 600 then "0" else EmptyString) ++ minutes_seconds t)
  /\ (forall t, 60 <= t ->
        exists d rest,
          1 <= d <= 9 /\ minutes_seconds t = String (digit_char d) rest)
  /\ map UserStats.formatTime [0; 65; 599; 3600]
     = ["0:00"; "1:05"; "9:59"; "60:00"]
  /\ map PlankTimer.formatTime [0; 65; 599; 3600]
     = ["00:00"; "01:05"; "09:59"; "60:00"].
Proof.
  split; [|split; [|split; reflexivity]].
  - intros t Ht.
    destruct (views_same_text t) as [HL HD].
    rewrite HL, HD, UserStats_formatTime_spec by exact Ht.
    repeat split; try reflexivity.
    apply PlankTimer_formatTime_spec; exact Ht.
  - intros t Ht. unfold minutes_seconds.
    assert (Hmin : 0 < t / 60) by (apply Z.div_str_pos; lia).
    rewrite toString_nonneg by lia.
    destruct (digits_leading (t / 60) Hmin) as (d & rest & Hd & Hdigits).
    exists d. eexists. split; [exact Hd|]. rewrite Hdigits. reflexivity.
Qed.

Lemma formatTime_views_witness :
  0 <= 125
  /\ UserStats.formatTime 125 = "2:05"
  /\ PlankTimer.formatTime 125 = "02:05".
Proof.
  split; [lia|].
  destruct formatTime_views as [H _].
  destruct (H 125 ltac:(lia)) as (HU & _ & _ & HP).
  split; [rewrite HU | rewrite HP]; reflexivity.
Defined.

(** C2 as stated fails: the session timer renders zero seconds as
    "00:00", not "0:00", and so disagrees with the other views. *)
Lemma formatTime_disagree :
  PlankTimer.formatTime 0 = "00:00"
  /\ PlankTimer.formatTime 0 <> "0:00"
  /\ PlankTimer.formatTime 0 <> UserStats.formatTime 0.
Proof. repeat split; discriminate. Qed.

End TimeFormat.

(** ** The session timer and the snapshot buffer *)

Module TimerFacts.
Import JS PlankTimer.
Local Open Scope string_scope.
Local Open Scope Z_scope.
Import Session.

Section Facts.
Context {Blob : Type}.
Implicit Types (s r : State Blob) (c : Component Blob) (e : Event Blob).
Implicit Types (be : Backend Blob) (blobs : list Blob).

Lemma step_render c e :
  render (fst (step c e)) = apply_updates (render c) (fst (handle c e)).
Proof. unfold step. destruct (handle c e). reflexivity. Qed.

Lemma step_effects c e : snd (step c e) = snd (handle c e).
Proof. unfold step. destruct (handle c e). reflexivity. Qed.

Lemma step_interval c e :
  interval (fst (step c e))
  = rearm (render c) (render (fst (step c e))) (interval c).
Proof. unfold step. destruct (handle c e). reflexivity. Qed.

Lemma handleComplete_updates r be :
  fst (handleComplete r be)
  = [setIsActive false; setIsCompleted true;
     setSeconds (match mode r with
                 | timer => initialSeconds r
                 | stopwatch => seconds r
                 end)].
Proof.
  unfold handleComplete.
  destruct (getUser be) as [user|]; [|reflexivity].
  destruct (insertPlank be user _) as [plankId|]; [|reflexivity].
  destruct (uploadSnapshots _ _ _ _ _ _ _). reflexivity.
Qed.

Lemma onTick_updates r order be n :
  fst (onTick r order be n)
  = match mode r with
    | timer =>
        if n <=? 1 then
          match order with
          | updater_first => setSeconds 0 :: fst (handleComplete r be)
          | nested_first => (fst (handleComplete r be) ++ [setSeconds 0])%list
          end
        else [setSeconds (n - 1)]
    | stopwatch => [setSeconds (n + 1)]
    end.
Proof.
  unfold onTick. destruct (mode r); [reflexivity|].
  destruct (n <=? 1); [|reflexivity].
  destruct (handleComplete r be). reflexivity.
Qed.

Lemma onTick_effects r order be n :
  snd (onTick r order be n)
  = match mode r with
    | timer => if n <=? 1 then snd (handleComplete r be) else []
    | stopwatch => []
    end.
Proof.
  unfold onTick. destruct (mode r); [reflexivity|].
  destruct (n <=? 1); [|reflexivity].
  destruct (handleComplete r be). reflexivity.
Qed.

(** *** The snapshot buffer *)

Lemma firstn_firstn_app (n : nat) (l l' : list Blob) :
  firstn n (firstn n l ++ l') = firstn n (l ++ l').
Proof.
  destruct (Nat.le_gt_cases n (List.length l)) as [Hle|Hgt].
  - rewrite !firstn_app.
    replace (n - List.length l)%nat with 0%nat by lia.
    rewrite length_firstn, Nat.min_l by exact Hle.
    rewrite Nat.sub_diag, firstn_firstn, Nat.min_id. reflexivity.
  - rewrite (firstn_all2 (n := n) l) by lia. reflexivity.
Qed.

Lemma push_snapshots (blobs : list Blob) : forall s,
  (List.length (snapshots s) <= 3)%nat ->
  snapshots (apply_updates s (map (@pushSnapshot Blob) blobs))
  = firstn 3 (snapshots s ++ blobs).
Proof.
  induction blobs as [|b blobs IH]; intros s Hs.
  - cbn [map apply_updates fold_left].
    rewrite app_nil_r, firstn_all2 by exact Hs. reflexivity.
  - cbn [map apply_updates fold_left].
    fold (apply_updates (apply_update s (pushSnapshot b))
            (map (@pushSnapshot Blob) blobs)).
    rewrite IH.
    + cbn [apply_update snapshots]. unfold slice0.
      rewrite firstn_firstn_app, <- app_assoc. reflexivity.
    + cbn [apply_update snapshots]. unfold slice0.
      rewrite length_firstn. lia.
Qed.

(** *** The session recorder *)

Lemma uploadSnapshots_spec be user plankId blobs : forall i photoPaths log,
  uploadSnapshots be user plankId i blobs photoPaths log
  = ((photoPaths
      ++ stored_paths (upload_answers be user plankId i blobs))%list,
     (log ++ upload_log be user plankId i blobs)%list).
Proof.
  induction blobs as [|blob blobs IH]; intros i photoPaths log.
  - cbn. now rewrite !app_nil_r.
  - cbn [uploadSnapshots upload_answers upload_log stored_paths flat_map].
    fold (snapshot_file user plankId i).
    destruct (upload be (snapshot_file user plankId i) blob)
      as [path|message]; rewrite IH; unfold stored_paths;
      now rewrite <- !app_assoc.
Qed.

Lemma upload_log_blobs be user plankId blobs : forall i,
  uploaded_blobs (upload_log be user plankId i blobs) = blobs.
Proof.
  induction blobs as [|blob blobs IH]; intros i; [reflexivity|].
  cbn [upload_log]. unfold uploaded_blobs in *.
  rewrite flat_map_app, IH.
  now destruct (upload be (snapshot_file user plankId i) blob).
Qed.

Lemma prefix_append (p m : string) : prefix p (p ++ m) = true.
Proof.
  induction p as [|a p IH]; cbn; [now destruct m|].
  destruct (ascii_dec a a); [exact IH | congruence].
Qed.

Lemma upload_log_toasts be user plankId blobs : forall i,
  upload_failure_toasts (upload_log be user plankId i blobs)
  = failures (upload_answers be user plankId i blobs).
Proof.
  induction blobs as [|blob blobs IH]; intros i; [reflexivity|].
  cbn [upload_log upload_answers].
  unfold upload_failure_toasts, failures in *.
  rewrite filter_app, length_app, IH.
  destruct (upload be (snapshot_file user plankId i) blob)
    as [path|message];
    cbn [filter is_upload_failure_toast app];
    rewrite ?prefix_append; cbn [filter]; simpl List.length;
    reflexivity.
Qed.

Lemma upload_log_updates be user plankId blobs : forall i,
  photo_updates (upload_log be user plankId i blobs) = [].
Proof.
  induction blobs as [|blob blobs IH]; intros i; [reflexivity|].
  cbn [upload_log]. unfold photo_updates in *.
  rewrite flat_map_app, IH.
  now destruct (upload be (snapshot_file user plankId i) blob).
Qed.

Lemma upload_log_persist be user plankId blobs : forall i rows,
  fold_left (@persist Blob) (upload_log be user plankId i blobs) rows
  = rows.
Proof.
  induction blobs as [|blob blobs IH]; intros i rows; [reflexivity|].
  cbn [upload_log]. rewrite fold_left_app, IH.
  now destruct (upload be (snapshot_file user plankId i) blob).
Qed.

Lemma answers_length be user plankId (blobs : list Blob) : forall i,
  List.length (upload_answers be user plankId i blobs) = List.length blobs.
Proof.
  induction blobs as [|blob blobs IH]; intros i; cbn; [|rewrite IH];
    reflexivity.
Qed.

Lemma paths_and_failures (answers : list (string + string)) :
  (List.length (stored_paths answers) + failures answers
   = List.length answers)%nat.
Proof.
  unfold stored_paths, failures.
  induction answers as [|[path|message] answers IH]; cbn in *; lia.
Qed.

(** The log of [handleComplete] for a logged-in user whose plank was
    inserted. *)
Lemma handleComplete_log r be user plankId :
  getUser be = Some user ->
  insertPlank be user (duration_of r) = Some plankId ->
  let paths :=
    stored_paths (upload_answers be user plankId 0 (snapshots r)) in
  snd (handleComplete r be)
  = ([db_insert user (duration_of r) (Some plankId)]
     ++ upload_log be user plankId 0 (snapshots r)
     ++ match paths with
        | [] => []
        | _ :: _ =>
            db_update plankId paths (updatePhotos be plankId paths)
            :: (if updatePhotos be plankId paths then []
                else [console_error "Failed to attach photos to plank:"])
        end
     ++ [toast_success "Plank saved!"])%list.
Proof.
  intros Huser Hinsert paths. subst paths.
  unfold handleComplete. fold (duration_of r).
  rewrite Huser, Hinsert, uploadSnapshots_spec. cbn [app snd].
  destruct (stored_paths _); cbn [app]; now rewrite <- ?app_assoc.
Qed.

(** *** Case analysis of a step *)

Ltac tidy_guards :=
  cbn [negb andb orb fst snd];
  rewrite ?andb_false_r, ?andb_true_r, ?orb_false_r, ?orb_true_r;
  cbn [negb andb orb fst snd];
  rewrite ?onTick_updates, ?onTick_effects, ?handleComplete_updates.

Ltac split_guards :=
  tidy_guards;
  repeat (match goal with
          | |- context [if ?b then _ else _] => destruct b eqn:?
          | |- context [match ?m with stopwatch => _ | timer => _ end] =>
              destruct m eqn:?
          | |- context [match ?o with Some _ => _ | None => _ end] =>
              destruct o eqn:?
          | |- context [match ?o with updater_first => _ | nested_first => _ end] =>
              destruct o eqn:?
          | |- context [match ?l with [] => _ | _ :: _ => _ end] =>
              destruct l eqn:?
          end; tidy_guards).

Ltac run_updates :=
  cbn [apply_updates fold_left apply_update app
       useCamera mode seconds initialSeconds inputMin inputSec
       isActive isCompleted vowCheat snapshots].

Ltac open_step c e :=
  rewrite ?step_render, ?step_effects;
  destruct e; unfold handle;
  unfold offered, handleStart, handlePause, handleReset, captureSnapshot,
    toBlobCallback.

(** Only a mode tab sets the mode, and its handler is guarded by
    [!isActive] and not rendered once the plank is completed. *)
Lemma mode_kept c e :
  isActive (render c) || isCompleted (render c) = true ->
  mode (render (fst (step c e))) = mode (render c).
Proof.
  intros Hbusy. open_step c e.
  all: destruct (isActive (render c)) eqn:Hact;
       destruct (isCompleted (render c)) eqn:Hdone;
       try discriminate Hbusy.
  all: split_guards; try discriminate; reflexivity.
Qed.

Lemma mode_switched c m :
  isActive (render c) = false -> isCompleted (render c) = false ->
  mode (render (fst (step c (click_mode m)))) = m.
Proof.
  intros Hact Hdone. rewrite step_render. unfold handle, offered.
  rewrite Hact, Hdone. reflexivity.
Qed.

(** *** Runs *)

Lemma run_cons c e events :
  fst (run c (e :: events)) = fst (run (fst (step c e)) events).
Proof.
  cbn [run]. destruct (step c e) as [c' effects]. cbn [fst].
  destruct (run c' events). reflexivity.
Qed.

Lemma snapshots_bounded_step c e :
  (List.length (snapshots (render c)) <= 3)%nat ->
  (List.length (snapshots (render (fst (step c e)))) <= 3)%nat.
Proof.
  intros Hlen. open_step c e.
  all: split_guards; run_updates; unfold slice0;
       rewrite ?length_firstn; cbn [List.length]; lia.
Qed.

Lemma snapshots_bounded_run events : forall c,
  (List.length (snapshots (render c)) <= 3)%nat ->
  (List.length (snapshots (render (fst (run c events)))) <= 3)%nat.
Proof.
  induction events as [|e events IH]; intros c Hlen; [exact Hlen|].
  rewrite run_cons. apply IH, snapshots_bounded_step, Hlen.
Qed.

(** While the session is active with the camera on, a capture appends
    the frame it gets and cuts the list back to its first three. *)
Lemma capture_step c frame :
  isActive (render c) = true -> useCamera (render c) = true ->
  isCompleted (render c) = false ->
  let c' := fst (step c (capture frame)) in
  isActive (render c') = true /\ useCamera (render c') = true
  /\ isCompleted (render c') = false
  /\ snapshots (render c')
     = match frame with
       | Some b => slice0 3 (snapshots (render c) ++ [b])
       | None => snapshots (render c)
       end.
Proof.
  intros Hact Hcam Hdone. cbv zeta. rewrite step_render.
  unfold handle, offered, captureSnapshot. rewrite Hact, Hcam, Hdone.
  destruct frame; run_updates; auto.
Qed.

Lemma captures_run frames : forall c,
  isActive (render c) = true -> useCamera (render c) = true ->
  isCompleted (render c) = false ->
  (List.length (snapshots (render c)) <= 3)%nat ->
  snapshots (render (fst (run c (map (@capture Blob) frames))))
  = firstn 3 (snapshots (render c) ++ delivered frames).
Proof.
  induction frames as [|frame frames IH]; intros c Hact Hcam Hdone Hlen.
  - cbn [map run fst delivered flat_map].
    rewrite app_nil_r, firstn_all2 by exact Hlen. reflexivity.
  - cbn [map]. rewrite run_cons.
    destruct (capture_step c frame Hact Hcam Hdone) as (Ha & Hc & Hd & Hs).
    rewrite IH; try assumption.
    + rewrite Hs. destruct frame as [b|]; [|reflexivity].
      unfold slice0. cbn [delivered flat_map].
      rewrite firstn_firstn_app, <- app_assoc. reflexivity.
    + apply snapshots_bounded_step, Hlen.
Qed.

(** *** Start requests *)

Lemma rearm_same s old : rearm s s old = old.
Proof.
  unfold rearm. rewrite Bool.eqb_reflx.
  now destruct (mode s).
Qed.

Lemma step_rejected c e effects :
  handle c e = ([], effects) -> callbacks c e = pending c ->
  step c e = (c, effects).
Proof.
  intros Hh Hsame. unfold step. rewrite Hh, Hsame. cbn. rewrite rearm_same.
  now destruct c.
Qed.

(** *** Provenance of the retained snapshots *)

Lemma activation_clears c e :
  isActive (render c) = false -> isActive (render (fst (step c e))) = true ->
  snapshots (render (fst (step c e))) = []
  /\ interval (fst (step c e)) = Some (render (fst (step c e))).
Proof.
  intros Hprev Hnext. split.
  - revert Hprev Hnext. open_step c e.
    all: split_guards; run_updates; intros; congruence.
  - rewrite step_interval. unfold rearm. rewrite Hprev, Hnext. reflexivity.
Qed.

Lemma incl_slice0 (n : nat) (l frames : list Blob) :
  incl l frames -> incl (slice0 n l) frames.
Proof.
  intros Hl x Hx. apply Hl. unfold slice0 in Hx.
  rewrite <- (firstn_skipn n l). apply in_or_app. now left.
Qed.

(** A step adds to the snapshot list at most the frame that arrives. *)
Lemma snapshots_step c e :
  incl (snapshots (render (fst (step c e))))
    (snapshots (render c) ++ arrived c e).
Proof.
  unfold arrived, draws. open_step c e.
  all: split_guards; run_updates; rewrite ?app_nil_r;
       try discriminate;
       try apply incl_nil_l; try apply incl_refl;
       try (apply incl_slice0, incl_refl);
       try (apply incl_appl, incl_refl).
  match goal with
  | H1 : negb ?a = false, H2 : negb ?b = false, H3 : ?a && ?b = false |- _ =>
      apply negb_false_iff in H1, H2; rewrite H1, H2 in H3; discriminate H3
  end.
Qed.

Lemma retained_step c e frames :
  retained_from c frames ->
  retained_from (fst (step c e)) (frames_after c e frames).
Proof.
  intros [Hnow Hheld]. unfold frames_after, activates.
  destruct (isActive (render c)) eqn:Hprev; cbn [negb andb].
  2: destruct (isActive (render (fst (step c e)))) eqn:Hnext.
  2: { destruct (activation_clears c e Hprev Hnext) as [Hempty Hint].
       split; [rewrite Hempty; apply incl_nil_l|].
       intros r Hr. rewrite Hint in Hr. injection Hr as <-.
       rewrite Hempty. apply incl_nil_l. }
  all: assert (Hnext' :
                 incl (snapshots (render (fst (step c e))))
                   (frames ++ arrived c e))
    by (eapply incl_tran; [apply snapshots_step|];
        apply incl_app; [apply incl_appl, Hnow | apply incl_appr, incl_refl]).
  all: split; [exact Hnext'|].
  all: intros r Hr; rewrite step_interval in Hr; unfold rearm in Hr.
  all: destruct (Bool.eqb _ _ && Mode_eqb _ _).
  all: try (destruct (isActive (render (fst (step c e))));
            [injection Hr as <-; exact Hnext' | discriminate Hr]).
  all: apply incl_appl, (Hheld r Hr).
Qed.

Lemma retained_run events : forall c frames,
  retained_from c frames ->
  retained_from (fst (run c events)) (frames_since_activation c events frames).
Proof.
  induction events as [|e events IH]; intros c frames Hc; [exact Hc|].
  rewrite run_cons. cbn [frames_since_activation].
  apply IH, retained_step, Hc.
Qed.

Lemma retained_weaken c frames frames' :
  incl frames frames' -> retained_from c frames -> retained_from c frames'.
Proof.
  intros Hincl [Hnow Hheld]. split.
  - eapply incl_tran; eassumption.
  - intros r Hr. eapply incl_tran; [exact (Hheld r Hr) | exact Hincl].
Qed.

Lemma delivered_app (l l' : list (option Blob)) :
  delivered (l ++ l') = (delivered l ++ delivered l')%list.
Proof. apply flat_map_app. Qed.

Lemma delivered_nth (l : list (option Blob)) : forall i blob,
  nth_error l i = Some (Some blob) -> In blob (delivered l).
Proof.
  induction l as [|[b|] l IH]; intros [|i] blob Hnth; cbn in *;
    try discriminate; eauto.
  injection Hnth as ->. now left.
Qed.

Lemma delivered_remove_nth (l : list (option Blob)) : forall i,
  incl (delivered (remove_nth i l)) (delivered l).
Proof.
  induction l as [|f l IH]; intros [|i]; cbn [remove_nth];
    try apply incl_refl.
  - unfold delivered. cbn [flat_map]. apply incl_appr, incl_refl.
  - unfold delivered. cbn [flat_map].
    apply incl_app; [apply incl_appl, incl_refl | apply incl_appr, IH].
Qed.

(** A frame that arrives was in flight or is drawn in the same step. *)
Lemma arrived_eligible c e :
  incl (arrived c e) (in_flight c ++ drawn c e).
Proof.
  destruct e; cbn [arrived drawn]; try apply incl_nil_l.
  - apply incl_appr, incl_refl.
  - destruct (nth_error (pending c) i) as [[blob|]|] eqn:Hnth;
      try apply incl_nil_l.
    intros b [<-|[]]. apply in_or_app. left.
    exact (delivered_nth _ _ _ Hnth).
Qed.

Lemma step_pending c e : pending (fst (step c e)) = callbacks c e.
Proof. unfold step. now destruct (handle c e). Qed.

(** The frames in flight after a step were in flight or are drawn in it. *)
Lemma in_flight_step c e :
  incl (in_flight (fst (step c e))) (in_flight c ++ drawn c e).
Proof.
  unfold in_flight. rewrite step_pending.
  destruct e; cbn [callbacks drawn]; try (apply incl_appl, incl_refl).
  - unfold draws.
    destruct (offered (render c) (draw blob)
              && (useCamera (render c) && negb (isCompleted (render c))));
      [|destruct blob; apply incl_appl, incl_refl].
    rewrite delivered_app. destruct blob; cbn; rewrite ?app_nil_r;
      apply incl_refl.
  - apply incl_appl, delivered_remove_nth.
Qed.

Lemma eligible_step c e frames :
  eligible_from c frames ->
  eligible_from (fst (step c e)) (eligible_after c e frames).
Proof.
  intros [Hkept Hflight]. unfold eligible_after.
  destruct (activates c e) eqn:Hact.
  - split; [|apply incl_refl].
    apply (retained_weaken _ []); [apply incl_nil_l|].
    pose proof (retained_step c e frames Hkept) as Hnext.
    unfold frames_after in Hnext. now rewrite Hact in Hnext.
  - assert (Hmore : incl (in_flight c ++ drawn c e) (frames ++ drawn c e))
      by (apply incl_app; [apply incl_appl, Hflight | apply incl_appr, incl_refl]).
    split.
    + pose proof (retained_step c e frames Hkept) as Hnext.
      unfold frames_after in Hnext. rewrite Hact in Hnext.
      revert Hnext. apply retained_weaken.
      apply incl_app; [apply incl_appl, incl_refl|].
      eapply incl_tran; [apply arrived_eligible | exact Hmore].
    + eapply incl_tran; [apply in_flight_step | exact Hmore].
Qed.

Lemma eligible_run events : forall c frames,
  eligible_from c frames ->
  eligible_from (fst (run c events))
    (eligible_since_activation c events frames).
Proof.
  induction events as [|e events IH]; intros c frames Hc; [exact Hc|].
  rewrite run_cons. cbn [eligible_since_activation].
  apply IH, eligible_step, Hc.
Qed.

Lemma handleComplete_blobs r be :
  incl (uploaded_blobs (snd (handleComplete r be))) (snapshots r).
Proof.
  destruct (getUser be) as [user|] eqn:Huser.
  2: { unfold handleComplete. rewrite Huser. apply incl_nil_l. }
  destruct (insertPlank be user (duration_of r)) as [plankId|] eqn:Hinsert.
  2: { unfold handleComplete. fold (duration_of r).
       rewrite Huser, Hinsert. apply incl_nil_l. }
  rewrite (handleComplete_log r be user plankId Huser Hinsert).
  unfold uploaded_blobs. rewrite !flat_map_app.
  fold (uploaded_blobs (upload_log be user plankId 0 (snapshots r))).
  rewrite upload_log_blobs. cbn [flat_map app].
  destruct (stored_paths _); [|destruct (updatePhotos be plankId _)];
    cbn [flat_map app]; rewrite app_nil_r; apply incl_refl.
Qed.

Lemma step_blobs c e frames :
  retained_from c frames -> incl (uploaded_blobs (snd (step c e))) frames.
Proof.
  intros [Hnow Hheld]. rewrite step_effects. unfold handle.
  destruct e; try (destruct (negb (offered _ _)); apply incl_nil_l).
  - unfold handleStart. split_guards; apply incl_nil_l.
  - destruct (negb (offered _ _)); [apply incl_nil_l|].
    eapply incl_tran; [apply handleComplete_blobs | exact Hnow].
  - destruct (interval c) as [r|] eqn:Hr; [|apply incl_nil_l].
    rewrite onTick_effects.
    destruct (mode r); [apply incl_nil_l|].
    destruct (_ <=? 1); [|apply incl_nil_l].
    eapply incl_tran; [apply handleComplete_blobs | exact (Hheld r eq_refl)].
Qed.

(** *** Countdown sessions *)

Lemma handleComplete_rows r be user plankId :
  getUser be = Some user ->
  insertPlank be user (duration_of r) = Some plankId ->
  let paths := stored_paths (upload_answers be user plankId 0 (snapshots r)) in
  persisted (snd (handleComplete r be))
  = [mkPlankRow plankId user (duration_of r)
       (if updatePhotos be plankId paths then paths else [])].
Proof.
  intros Huser Hinsert paths.
  rewrite (handleComplete_log r be user plankId Huser Hinsert).
  fold paths. unfold persisted.
  rewrite !fold_left_app, upload_log_persist. cbn [fold_left persist app].
  destruct paths as [|path paths'].
  - cbn. now destruct (updatePhotos be plankId []).
  - destruct (updatePhotos be plankId (path :: paths')); cbn;
      rewrite ?Z.eqb_refl; reflexivity.
Qed.

Lemma upload_log_inserts be user plankId (blobs : list Blob) :
  forall i user' duration answer,
    ~ In (db_insert user' duration answer) (upload_log be user plankId i blobs).
Proof.
  induction blobs as [|blob blobs IH]; intros i user' duration answer;
    [exact (fun H => H)|].
  cbn [upload_log]. intros Hin. apply in_app_or in Hin.
  destruct Hin as [Hin|Hin]; [|exact (IH _ _ _ _ Hin)].
  destruct (upload be (snapshot_file user plankId i) blob); cbn in Hin;
    intuition discriminate.
Qed.

Lemma handleComplete_inserts r be user duration answer :
  In (db_insert user duration answer) (snd (handleComplete r be)) ->
  duration = duration_of r.
Proof.
  destruct (getUser be) as [user'|] eqn:Huser.
  2: { unfold handleComplete. rewrite Huser. cbn. intuition discriminate. }
  destruct (insertPlank be user' (duration_of r)) as [plankId|] eqn:Hinsert.
  2: { unfold handleComplete. fold (duration_of r). rewrite Huser, Hinsert.
       cbn. intros [H|[H|[H|[]]]]; congruence. }
  rewrite (handleComplete_log r be user' plankId Huser Hinsert).
  intros Hin. apply in_app_or in Hin. destruct Hin as [[H|[]]|Hin];
    [congruence|].
  apply in_app_or in Hin. destruct Hin as [Hin|Hin];
    [now apply upload_log_inserts in Hin|].
  apply in_app_or in Hin. destruct Hin as [Hin|[H|[]]]; [|discriminate H].
  destruct (stored_paths _); [destruct Hin|].
  destruct (updatePhotos be plankId _); cbn in Hin; intuition discriminate.
Qed.

Lemma start_countdown c :
  offered (render c) click_start = true -> vowCheat (render c) = true ->
  mode (render c) = timer ->
  0 < inputMin (render c) * 60 + inputSec (render c) ->
  let c1 := fst (step c click_start) in
  counting_down (inputMin (render c) * 60 + inputSec (render c)) c1
  /\ seconds (render c1) = inputMin (render c) * 60 + inputSec (render c)
  /\ mode (render c1) = timer.
Proof.
  intros Hoff Hvow Hmode Htarget. cbv zeta.
  assert (Hidle : isActive (render c) = false).
  { cbn in Hoff. destruct (isActive (render c)); [|reflexivity].
    now rewrite andb_false_r in Hoff. }
  assert (Hrender :
            render (fst (step c click_start))
            = apply_updates (render c)
                [setInitialSeconds (inputMin (render c) * 60 + inputSec (render c));
                 setSeconds (inputMin (render c) * 60 + inputSec (render c));
                 setSnapshots []; setIsActive true; setIsCompleted false]).
  { rewrite step_render. unfold handle. rewrite Hoff. cbn [negb].
    unfold handleStart. rewrite Hvow, Hmode. cbn [negb Mode_eqb andb].
    now replace (inputMin (render c) * 60 + inputSec (render c) <=? 0)
      with false by (symmetry; apply Z.leb_gt; exact Htarget). }
  unfold counting_down. rewrite step_interval, Hrender. run_updates.
  repeat split; [|exact Hmode].
  unfold rearm. rewrite Hidle. cbn [isActive Bool.eqb andb].
  eexists. split; [reflexivity|]. split; [exact Hmode | reflexivity].
Qed.

Lemma completed_stays_inactive c e :
  isCompleted (render c) = false ->
  isActive (render (fst (step c e))) = true ->
  isCompleted (render (fst (step c e))) = false.
Proof.
  open_step c e.
  all: split_guards; run_updates; intros; congruence.
Qed.

Lemma counting_down_step T c e :
  counting_down T c -> isActive (render (fst (step c e))) = true ->
  counting_down T (fst (step c e)).
Proof.
  intros (Hact & Hdone & r & Hr & Hmode & Hinit) Hnext.
  split; [exact Hnext|]. split; [now apply completed_stays_inactive|].
  exists r. rewrite step_interval. unfold rearm.
  rewrite Hact, Hnext, mode_kept by (rewrite Hact; reflexivity).
  cbn [Bool.eqb]. destruct (mode (render c)); cbn; auto.
Qed.

Lemma stays_active_head c events :
  stays_active c events -> isActive (render c) = true.
Proof. destruct events; cbn; tauto. Qed.

Lemma counting_down_run T events : forall c,
  counting_down T c -> stays_active c events ->
  counting_down T (fst (run c events)).
Proof.
  induction events as [|e events IH]; intros c Hc Hrun; [exact Hc|].
  rewrite run_cons. destruct Hrun as [_ Hrun].
  apply IH; [|exact Hrun].
  apply counting_down_step; [exact Hc|]. now apply stays_active_head in Hrun.
Qed.

(** The tick that finds at most one second left on a running countdown. *)
Lemma last_tick T c order be :
  counting_down T c -> seconds (render c) <= 1 ->
  exists r,
    interval c = Some r /\ mode r = timer /\ duration_of r = T
    /\ fst (handle c (tick order be))
       = match order with
         | updater_first =>
             [setSeconds 0; setIsActive false; setIsCompleted true; setSeconds T]
         | nested_first =>
             [setIsActive false; setIsCompleted true; setSeconds T; setSeconds 0]
         end
    /\ snd (handle c (tick order be)) = snd (handleComplete r be).
Proof.
  intros (Hact & Hdone & r & Hr & Hmode & Hinit) Hlast.
  exists r. unfold duration_of, handle.
  rewrite Hr, onTick_updates, onTick_effects, handleComplete_updates.
  rewrite Hmode, Hinit.
  replace (seconds (render c) <=? 1) with true
    by (symmetry; apply Z.leb_le; exact Hlast).
  destruct order; repeat split.
Qed.

Lemma tick_down T c order be :
  counting_down T c -> 1 < seconds (render c) ->
  let c' := fst (step c (tick order be)) in
  counting_down T c' /\ seconds (render c') = seconds (render c) - 1.
Proof.
  intros Hc Hmore. cbv zeta.
  assert (Hrender :
            render (fst (step c (tick order be)))
            = apply_updates (render c) [setSeconds (seconds (render c) - 1)]).
  { destruct Hc as (Hact & Hdone & r & Hr & Hmode & Hinit).
    rewrite step_render. unfold handle.
    rewrite Hr, onTick_updates, Hmode.
    now replace (seconds (render c) <=? 1) with false
      by (symmetry; apply Z.leb_gt; exact Hmore). }
  split.
  - apply counting_down_step; [exact Hc|].
    rewrite Hrender. run_updates. apply Hc.
  - rewrite Hrender. reflexivity.
Qed.

(** A countdown that is left alone reaches its last second: [n] ticks take
    [n + 1] seconds down to one, and the session is active all along. *)
Lemma ticks_down T (ticks : list (UpdaterOrder * Backend Blob)) : forall c,
  counting_down T c ->
  seconds (render c) = Z.of_nat (List.length ticks) + 1 ->
  let events := map (fun t => tick (fst t) (snd t)) ticks in
  stays_active c events /\ seconds (render (fst (run c events))) = 1.
Proof.
  induction ticks as [|[order be] ticks IH]; intros c Hc Hsec; cbv zeta.
  - split; [apply Hc | exact Hsec].
  - cbn [map fst snd stays_active]. rewrite run_cons.
    destruct (tick_down T c order be Hc) as [Hc' Hsec'].
    { rewrite Hsec. cbn [List.length]. lia. }
    destruct (IH _ Hc') as [Hrun Hone].
    { rewrite Hsec', Hsec. cbn [List.length]. lia. }
    split; [split; [apply Hc | exact Hrun] | exact Hone].
Qed.

End Facts.

(** C1, as the code has it.  During an active session with the camera
    on, started with an empty buffer, the retained list after any
    sequence of captures is the first three frames handed over (all of
    them while there are at most three): a capture made when three frames
    are retained is dropped, nothing is evicted.  From mounting on, the
    list never holds more than 3 entries. *)
Theorem snapshots_keep_first_three (Blob : Type) :
  (forall (c : Component Blob) frames,
      isActive (render c) = true -> useCamera (render c) = true ->
      isCompleted (render c) = false -> snapshots (render c) = [] ->
      snapshots (render (fst (run c (map (@capture Blob) frames))))
      = firstn 3 (delivered frames))
  /\ (forall events : list (Event Blob),
        (List.length (snapshots (render (fst (run mount events)))) <= 3)%nat).
Proof.
  split.
  - intros c frames Hact Hcam Hdone Hempty.
    rewrite captures_run by (rewrite ?Hempty; cbn; auto with arith).
    rewrite Hempty. reflexivity.
  - intros events. apply snapshots_bounded_run. cbn. lia.
Qed.

Lemma snapshots_keep_first_three_witness :
  snapshots (render (fst (run started_with_camera
                            (map (@capture nat) [Some 1; None; Some 2]))))%nat
  = [1; 2]%nat.
Proof.
  apply (proj1 (snapshots_keep_first_three nat) started_with_camera
           [Some 1; None; Some 2]%nat); reflexivity.
Defined.

(** C1 as stated fails: after four captures the retained list is the
    first three frames, not the last three; the newest frame is the one
    that is lost. *)
Lemma fourth_capture_dropped :
  snapshots (render (fst (run started_with_camera
                            (map (@capture nat)
                               [Some 1; Some 2; Some 3; Some 4]))))%nat
  = [1; 2; 3]%nat
  /\ last_n 3 [1; 2; 3; 4]%nat = [2; 3; 4]%nat
  /\ snapshots (render (fst (run started_with_camera
                               (map (@capture nat)
                                  [Some 1; Some 2; Some 3; Some 4]))))%nat
     <> last_n 3 [1; 2; 3; 4]%nat.
Proof. repeat split. discriminate. Qed.

(** C7.  A start request (the Start button is on screen) is rejected
    with a warning and changes nothing, so the timer stays inactive, when
    the acknowledgment is not checked, and likewise in countdown mode when
    the target [inputMin * 60 + inputSec] is not strictly positive;
    otherwise the timer becomes Active. *)
Theorem start_request (Blob : Type) (c : Component Blob) :
  offered (render c) click_start = true ->
  let s := render c in
  let target := inputMin s * 60 + inputSec s in
  (vowCheat s = false ->
     step c click_start
     = (c, [toast_error "You must swear you won’t cheat before you start!"])
     /\ isActive (render (fst (step c click_start))) = false)
  /\ (vowCheat s = true -> mode s = timer -> target <= 0 ->
        step c click_start = (c, [toast_error "Please set a positive timer."])
        /\ isActive (render (fst (step c click_start))) = false)
  /\ (vowCheat s = true -> mode s = stopwatch \/ 0 < target ->
        isActive (render (fst (step c click_start))) = true
        /\ snd (step c click_start) = []).
Proof.
  intros Hoff s target. subst s target.
  assert (Hidle : isActive (render c) = false).
  { cbn in Hoff. destruct (isActive (render c)); [|reflexivity].
    now rewrite andb_false_r in Hoff. }
  split; [|split].
  - intros Hvow.
    assert (Hstep : step c click_start
                    = (c, [toast_error
                             "You must swear you won’t cheat before you start!"])).
    { apply step_rejected; [|reflexivity]. unfold handle. rewrite Hoff.
      cbn [negb]. unfold handleStart. rewrite Hvow. reflexivity. }
    rewrite Hstep. split; [reflexivity | exact Hidle].
  - intros Hvow Hmode Htarget.
    assert (Hstep : step c click_start
                    = (c, [toast_error "Please set a positive timer."])).
    { apply step_rejected; [|reflexivity]. unfold handle. rewrite Hoff.
      cbn [negb]. unfold handleStart. rewrite Hvow, Hmode.
      cbn [negb Mode_eqb andb].
      now replace (inputMin (render c) * 60 + inputSec (render c) <=? 0)
        with true by (symmetry; apply Z.leb_le; exact Htarget). }
    rewrite Hstep. split; [reflexivity | exact Hidle].
  - intros Hvow Hok. rewrite step_render, step_effects.
    unfold handle. rewrite Hoff. cbn [negb].
    unfold handleStart. rewrite Hvow. cbn [negb].
    destruct (mode (render c)) eqn:Hmode; cbn [Mode_eqb andb].
    + split; reflexivity.
    + destruct Hok as [Hok|Hok]; [discriminate|].
      replace (inputMin (render c) * 60 + inputSec (render c) <=? 0)
        with false by (symmetry; apply Z.leb_gt; exact Hok).
      split; reflexivity.
Qed.

Lemma start_request_witness :
  offered (render (fst (step (@mount nat) (check_vow true)))) click_start
  = true
  /\ isActive (render (fst (step (fst (step (@mount nat) (check_vow true)))
                              click_start))) = true.
Proof.
  split; [reflexivity|].
  apply (start_request nat (fst (step (@mount nat) (check_vow true))));
    [reflexivity | reflexivity | left; reflexivity].
Defined.

(** C9.  For a logged-in user whose plank row was inserted,
    [handleComplete] tries the upload of every retained snapshot, in
    order, whatever the earlier uploads answered; it notifies each failed
    upload once; it writes the stored paths back in a single update
    exactly when at least one upload succeeded; and it ends with the
    success notification.  The row persists in every case.  With three
    snapshots of which two uploads fail there is exactly one stored path
    and there are exactly two failure notifications, and once the update
    is accepted the row holds exactly that one path. *)
Theorem upload_failures_do_not_abort (Blob : Type) (r : State Blob)
    (be : Backend Blob) (user : string) (plankId : Z) :
  getUser be = Some user ->
  insertPlank be user (duration_of r) = Some plankId ->
  let log := snd (handleComplete r be) in
  let answers := upload_answers be user plankId 0 (snapshots r) in
  let paths := stored_paths answers in
  uploaded_blobs log = snapshots r
  /\ upload_failure_toasts log = failures answers
  /\ photo_updates log
     = match paths with
       | [] => []
       | _ :: _ => [(plankId, paths, updatePhotos be plankId paths)]
       end
  /\ last log (toast_error "none") = toast_success "Plank saved!"
  /\ persisted log
     = [mkPlankRow plankId user (duration_of r)
          (if updatePhotos be plankId paths then paths else [])]
  /\ (List.length (snapshots r) = 3%nat -> failures answers = 2%nat ->
      upload_failure_toasts log = 2%nat
      /\ exists path,
          paths = [path]
          /\ photo_updates log
             = [(plankId, [path], updatePhotos be plankId [path])]
          /\ (updatePhotos be plankId [path] = true ->
              persisted log
              = [mkPlankRow plankId user (duration_of r) [path]])).
Proof.
  intros Huser Hinsert log answers paths.
  pose proof (handleComplete_log r be user plankId Huser Hinsert) as Hlog.
  cbv zeta in Hlog. fold answers paths log in Hlog.
  assert (Hblobs : uploaded_blobs log = snapshots r).
  { rewrite Hlog. unfold uploaded_blobs.
    rewrite !flat_map_app.
    fold (uploaded_blobs (upload_log be user plankId 0 (snapshots r))).
    rewrite upload_log_blobs. cbn [flat_map app].
    destruct paths; [|destruct (updatePhotos be plankId _)];
      cbn [flat_map app]; now rewrite app_nil_r. }
  assert (Htoasts : upload_failure_toasts log = failures answers).
  { rewrite Hlog. unfold upload_failure_toasts.
    rewrite !filter_app, !length_app.
    fold (upload_failure_toasts (upload_log be user plankId 0 (snapshots r))).
    rewrite upload_log_toasts. fold answers.
    destruct paths; [|destruct (updatePhotos be plankId _)]; cbn; lia. }
  assert (Hupdates :
            photo_updates log
            = match paths with
              | [] => []
              | _ :: _ => [(plankId, paths, updatePhotos be plankId paths)]
              end).
  { rewrite Hlog. unfold photo_updates.
    rewrite !flat_map_app.
    fold (photo_updates (upload_log be user plankId 0 (snapshots r))).
    rewrite upload_log_updates.
    destruct paths; [reflexivity|].
    now destruct (updatePhotos be plankId _). }
  assert (Hrows :
            persisted log
            = [mkPlankRow plankId user (duration_of r)
                 (if updatePhotos be plankId paths then paths else [])]).
  { rewrite Hlog. unfold persisted.
    rewrite !fold_left_app, upload_log_persist. cbn [fold_left persist app].
    destruct paths as [|path paths'].
    - cbn. now destruct (updatePhotos be plankId []).
    - destruct (updatePhotos be plankId (path :: paths')); cbn;
        rewrite ?Z.eqb_refl; reflexivity. }
  repeat split; try assumption.
  - rewrite Hlog, !app_assoc. apply last_last.
  - congruence.
  - pose proof (paths_and_failures answers) as Hsum.
    pose proof (answers_length be user plankId (snapshots r) 0) as Hlen.
    fold answers in Hlen. fold paths in Hsum.
    assert (Hone : List.length paths = 1%nat) by lia.
    destruct paths as [|path [|path' paths']]; try discriminate Hone.
    exists path. split; [reflexivity|]. split; [exact Hupdates|].
    intros Hok. rewrite Hrows, Hok. reflexivity.
Qed.

Lemma upload_failures_do_not_abort_witness :
  upload_failure_toasts (snd (handleComplete three_snapshots second_upload_only))
  = 2%nat
  /\ persisted (snd (handleComplete three_snapshots second_upload_only))
     = [mkPlankRow 7 "u1" 25 ["u1_7_1.png"]].
Proof.
  destruct (upload_failures_do_not_abort nat three_snapshots
              second_upload_only "u1" 7 eq_refl eq_refl)
    as (_ & _ & _ & _ & _ & Hthree).
  destruct (Hthree eq_refl eq_refl) as (Htoasts & path & Hpath & _ & Hrows).
  split; [exact Htoasts|].
  injection Hpath as Hpath. subst path. apply Hrows. reflexivity.
Defined.

(** C8.  A countdown is started with a strictly positive target
    [T = inputMin * 60 + inputSec]; the session then stays Active through
    any events (ticks, captures, ...) until at most one second is left.
    The next tick completes the plank.  What is persisted is the target:
    no insert with another duration is sent, and when the user is logged
    in and the insert is accepted the persisted row has the duration [T],
    not a count of the seconds that went by.  What the Completed screen
    reports depends on the order in which React applies the
    [setSeconds(duration)] of [handleComplete] and the [return 0] of the
    updater that called it: the target [T] when the updater's result comes
    first, and 0 when the nested call is queued first, so that the screen
    shows 00:00 for a plank that was saved with [T] seconds. *)
Theorem countdown_completion (Blob : Type) (c : Component Blob)
    (events : list (Event Blob)) (order : UpdaterOrder) (be : Backend Blob) :
  let T := inputMin (render c) * 60 + inputSec (render c) in
  offered (render c) click_start = true -> vowCheat (render c) = true ->
  mode (render c) = timer -> 0 < T ->
  let c1 := fst (step c click_start) in
  stays_active c1 events ->
  let c2 := fst (run c1 events) in
  seconds (render c2) <= 1 ->
  let c3 := fst (step c2 (tick order be)) in
  let log := snd (step c2 (tick order be)) in
  phase (render c3) = Completed
  /\ seconds (render c3)
     = match order with
       | updater_first => T
       | nested_first => 0
       end
  /\ formatTime (seconds (render c3))
     = match order with
       | updater_first => formatTime T
       | nested_first => "00:00"
       end
  /\ (forall user duration answer,
        In (db_insert user duration answer) log -> duration = T)
  /\ (forall user plankId,
        getUser be = Some user -> insertPlank be user T = Some plankId ->
        exists paths, persisted log = [mkPlankRow plankId user T paths]).
Proof.
  intros T Hoff Hvow Hmode Htarget c1 Hrun c2 Hlast c3 log.
  destruct (start_countdown c Hoff Hvow Hmode Htarget) as (Hc1 & _ & _).
  fold T c1 in Hc1.
  pose proof (counting_down_run T events c1 Hc1 Hrun) as Hc2. fold c2 in Hc2.
  destruct (last_tick T c2 order be Hc2 Hlast)
    as (r & Hr & Hrmode & Hdur & Hups & Heffs).
  subst c3 log. rewrite step_render, step_effects, Hups, Heffs.
  split; [|split; [|split; [|split]]].
  - unfold phase. destruct order; reflexivity.
  - destruct order; reflexivity.
  - destruct order; reflexivity.
  - intros user duration answer Hin. rewrite <- Hdur.
    now apply handleComplete_inserts in Hin.
  - intros user plankId Huser Hinsert. rewrite <- Hdur in *.
    eexists. apply handleComplete_rows; eassumption.
Qed.

(** A countdown of two seconds, completed by a tick whose updater React
    runs eagerly: the row is saved with 2 seconds and the Completed screen
    shows 00:00. *)
Lemma countdown_completion_witness :
  let c2 := fst (run (fst (step two_second_countdown click_start))
                   [tick nested_first second_upload_only; capture None]) in
  let done := step c2 (tick nested_first second_upload_only) in
  persisted (snd done) = [mkPlankRow 7 "u1" 2 []]
  /\ phase (render (fst done)) = Completed
  /\ formatTime (seconds (render (fst done))) = "00:00".
Proof.
  cbv zeta.
  destruct (countdown_completion nat two_second_countdown
              [tick nested_first second_upload_only; capture None]
              nested_first second_upload_only
              eq_refl eq_refl eq_refl eq_refl
              (conj eq_refl (conj eq_refl eq_refl)) ltac:(discriminate))
    as (Hphase & _ & Hshown & _ & Hrow).
  destruct (Hrow "u1" 7 eq_refl eq_refl) as [paths Hpaths].
  split; [|split; [exact Hphase | exact Hshown]].
  rewrite Hpaths. injection Hpaths as <-. reflexivity.
Defined.

(** C10, what the code guarantees.  A start request that is accepted
    leaves the snapshot buffer empty in the very render in which the timer is
    Active (and in the closure the one-second interval takes from that
    render).  Along every run of events from mounting on, the blobs a
    completion uploads were handed to the component since the timer last
    became Active, and each of them was drawn since then or was in flight,
    its [toBlob] callback pending, when the timer became Active. *)
Theorem start_clears_snapshots (Blob : Type) :
  (forall c : Component Blob,
      offered (render c) click_start = true ->
      isActive (render (fst (step c click_start))) = true ->
      snapshots (render (fst (step c click_start))) = []
      /\ interval (fst (step c click_start))
         = Some (render (fst (step c click_start))))
  /\ (forall (events : list (Event Blob)) (e : Event Blob),
        incl (uploaded_blobs (snd (step (fst (run mount events)) e)))
          (frames_since_activation mount events []))
  /\ (forall (events : list (Event Blob)) (e : Event Blob),
        incl (uploaded_blobs (snd (step (fst (run mount events)) e)))
          (eligible_since_activation mount events [])).
Proof.
  split; [|split].
  - intros c Hoff Hnext. apply activation_clears; [|exact Hnext].
    cbn in Hoff. destruct (isActive (render c)); [|reflexivity].
    now rewrite andb_false_r in Hoff.
  - intros events e. apply step_blobs, retained_run.
    split; [apply incl_nil_l | discriminate].
  - intros events e.
    apply step_blobs, (eligible_run events mount []).
    split; [split; [apply incl_nil_l | discriminate] | apply incl_nil_l].
Qed.

Lemma start_clears_snapshots_witness :
  snapshots (render paused_with_a_frame) = [1]%nat
  /\ offered (render paused_with_a_frame) click_start = true
  /\ snapshots (render (fst (step paused_with_a_frame click_start))) = [].
Proof.
  split; [reflexivity|]. split; [reflexivity|].
  apply (proj1 (start_clears_snapshots nat) paused_with_a_frame); reflexivity.
Defined.

(** C10 is missed when a callback is late: a frame drawn in the first
    activation, whose callback runs after the session was started again,
    is retained by the second activation and uploaded with its plank,
    although the only frame drawn since the timer last became Active is
    the second one. *)
Lemma stale_frame_uploaded :
  let events := restarted_with_a_pending_frame second_upload_only in
  drawn_since_activation mount events [] = [2]%nat
  /\ snapshots (render (fst (run mount events))) = [1; 2]%nat
  /\ uploaded_blobs (snd (step (fst (run mount events))
                             (click_save second_upload_only))) = [1; 2]%nat
  /\ ~ incl (uploaded_blobs (snd (step (fst (run mount events))
                                     (click_save second_upload_only))))
        (drawn_since_activation mount events []).
Proof.
  cbv zeta. split; [reflexivity|]. split; [reflexivity|].
  split; [reflexivity|].
  intros Hincl. vm_compute in Hincl.
  destruct (Hincl 1%nat (or_introl eq_refl)) as [H|[]]. discriminate H.
Qed.

(** Two activations in a row with callbacks that run at once: the frames
    of the first one are gone when the plank of the second one is saved. *)
Example second_activation_only :
  let events :=
    [check_vow true; toggle_camera; click_start; capture (Some 1%nat);
     capture (Some 2%nat); click_pause; click_start; capture (Some 3%nat);
     tick updater_first second_upload_only; click_pause] in
  frames_since_activation mount events [] = [3]%nat
  /\ eligible_since_activation mount events [] = [3]%nat
  /\ uploaded_blobs (snd (step (fst (run mount events))
                             (click_save second_upload_only))) = [3]%nat.
Proof. repeat split. Qed.

(** C3, as the code has it.  A mode-change request leaves the mode
    unchanged whenever the timer is Active or Completed (so does every
    other event), and it sets the requested mode whenever the timer is
    neither, that is, while it is Idle and also while it is Paused. *)
Theorem mode_change_guard (Blob : Type) (c : Component Blob) :
  (phase (render c) = Active \/ phase (render c) = Completed ->
   forall e, mode (render (fst (step c e))) = mode (render c))
  /\ (phase (render c) = Idle \/ phase (render c) = Paused ->
      forall m, mode (render (fst (step c (click_mode m)))) = m).
Proof.
  unfold phase. split.
  - intros Hphase e. apply mode_kept.
    destruct (isCompleted (render c)); [apply orb_true_r|].
    destruct (isActive (render c)); [reflexivity|].
    destruct (seconds (render c) =? 0); destruct Hphase; discriminate.
  - intros Hphase m.
    destruct (isCompleted (render c)) eqn:Hdone;
      [destruct Hphase; discriminate|].
    destruct (isActive (render c)) eqn:Hact;
      [destruct Hphase; discriminate|].
    now apply mode_switched.
Qed.

Lemma mode_change_guard_witness :
  (phase (render (@mount nat)) = Idle \/ phase (render (@mount nat)) = Paused)
  /\ mode (render (fst (step (@mount nat) (click_mode timer)))) = timer.
Proof.
  split; [left; reflexivity|].
  apply (proj2 (mode_change_guard nat mount)). left; reflexivity.
Defined.

(** C3 as stated fails: in a Paused session a mode-change request does
    change the mode. *)
Lemma mode_changes_while_paused :
  phase (render paused_after_one_second) = Paused
  /\ mode (render paused_after_one_second) = stopwatch
  /\ mode (render (fst (step paused_after_one_second (click_mode timer))))
     = timer.
Proof. repeat split. Qed.

End TimerFacts.

(** ** The ranking aggregator *)

Module RankingFacts.
Import JS.
Local Open Scope Z_scope.
Import Ranking.

(** *** The stable sort by a key, largest first *)

Section SortByKey.
Context {A : Type} (key : A -> Z).

Lemma sort_insert_perm x l :
  Permutation (sort_insert (by_key_desc key) x l) (x :: l).
Proof.
  induction l as [|y l IH]; cbn; [apply Permutation_refl|].
  destruct (by_key_desc key x y <=? 0); [apply Permutation_refl|].
  rewrite IH. apply perm_swap.
Qed.

Lemma Array_sort_perm l : Permutation (Array_sort (by_key_desc key) l) l.
Proof.
  induction l as [|x l IH]; cbn; [apply perm_nil|].
  rewrite sort_insert_perm. now apply perm_skip.
Qed.

Lemma sort_insert_sorted x l :
  StronglySorted (key_ge key) l ->
  StronglySorted (key_ge key) (sort_insert (by_key_desc key) x l).
Proof.
  induction 1 as [|y l Hl IH Hy]; cbn.
  - repeat constructor.
  - unfold by_key_desc at 1.
    destruct (Z.leb_spec (key y - key x) 0) as [Hle|Hgt].
    + constructor; [now constructor|].
      constructor; [unfold key_ge; lia|].
      eapply Forall_impl; [|exact Hy]. unfold key_ge. intros z Hz. lia.
    + constructor; [exact IH|].
      eapply Permutation_Forall;
        [apply Permutation_sym, sort_insert_perm|].
      constructor; [unfold key_ge; lia | exact Hy].
Qed.

Lemma Array_sort_sorted l :
  StronglySorted (key_ge key) (Array_sort (by_key_desc key) l).
Proof.
  induction l as [|x l IH]; cbn; [constructor|].
  now apply sort_insert_sorted.
Qed.

(** Stability: the entries of one key value keep their order. *)
Lemma sort_insert_stable v x l :
  filter (fun a => key a =? v) (sort_insert (by_key_desc key) x l)
  = filter (fun a => key a =? v) (x :: l).
Proof.
  induction l as [|y l IH]; [reflexivity|].
  cbn [sort_insert]. unfold by_key_desc at 1.
  destruct (Z.leb_spec (key y - key x) 0) as [Hle|Hgt]; [reflexivity|].
  cbn [filter] in *. rewrite IH.
  destruct (Z.eqb_spec (key x) v), (Z.eqb_spec (key y) v);
    try reflexivity; lia.
Qed.

Lemma Array_sort_stable v l :
  filter (fun a => key a =? v) (Array_sort (by_key_desc key) l)
  = filter (fun a => key a =? v) l.
Proof.
  induction l as [|x l IH]; [reflexivity|].
  cbn [Array_sort fold_right].
  fold (Array_sort (by_key_desc key) l).
  rewrite sort_insert_stable. cbn [filter]. now rewrite IH.
Qed.

End SortByKey.

(** *** Ranks by position *)

Section Ranked.
Context {A B : Type} (f : A -> Z -> B) (rank : B -> Z).
Hypothesis rank_f : forall x i, rank (f x i) = i + 1.

Lemma mapi_from_ranks l : forall i : nat,
  map rank (mapi_from (Z.of_nat i) f l)
  = map Z.of_nat (seq (S i) (List.length l)).
Proof.
  induction l as [|x l IH]; intros i; [reflexivity|].
  cbn [mapi_from map seq List.length]. rewrite rank_f.
  replace (Z.of_nat i + 1) with (Z.of_nat (S i)) by lia.
  now rewrite IH.
Qed.

Lemma mapi_from_project {C : Type} (g : B -> C) (h : A -> C) :
  (forall x i, g (f x i) = h x) ->
  forall l i, map g (mapi_from i f l) = map h l.
Proof.
  intros Hgh. induction l as [|x l IH]; intros i; [reflexivity|].
  cbn [mapi_from map]. now rewrite Hgh, IH.
Qed.

Lemma mapi_from_filter (p : B -> bool) (q : A -> bool) {C : Type}
    (g : B -> C) (h : A -> C) :
  (forall x i, p (f x i) = q x) -> (forall x i, g (f x i) = h x) ->
  forall l i, map g (filter p (mapi_from i f l)) = map h (filter q l).
Proof.
  intros Hpq Hgh. induction l as [|x l IH]; intros i; [reflexivity|].
  cbn [mapi_from filter]. rewrite Hpq.
  destruct (q x); cbn [map]; now rewrite ?Hgh, IH.
Qed.

End Ranked.

(** In a list whose values never go up while its ranks go up strictly, a
    larger value has the smaller rank. *)
Lemma larger_value_smaller_rank {B : Type} (value rank : B -> Z) (l : list B) :
  descending (map value l) ->
  StronglySorted Z.lt (map rank l) ->
  forall a b, In a l -> In b l -> value b < value a -> rank a < rank b.
Proof.
  unfold descending.
  induction l as [|x l IH]; intros Hv Hr a b Ha Hb Hlt; [destruct Ha|].
  cbn [map] in Hv, Hr.
  apply StronglySorted_inv in Hv. destruct Hv as [Hv Hvx].
  apply StronglySorted_inv in Hr. destruct Hr as [Hr Hrx].
  rewrite Forall_forall in Hvx, Hrx.
  destruct Ha as [<-|Ha], Hb as [<-|Hb].
  - lia.
  - apply Hrx, in_map, Hb.
  - specialize (Hvx (value a) (in_map value l a Ha)). lia.
  - now apply IH.
Qed.

Lemma ranks_upto_increasing n : StronglySorted Z.lt (ranks_upto n).
Proof.
  unfold ranks_upto. generalize 1%nat as i.
  induction n as [|n IH]; intros i; cbn [seq map]; constructor; [apply IH|].
  apply Forall_forall. intros z Hz. apply in_map_iff in Hz.
  destruct Hz as (k & <- & Hk). apply in_seq in Hk. lia.
Qed.

(** *** Plain objects as maps *)

Section Objects.
Context {V : Type}.
Implicit Types (o : Obj V) (k : string) (v : V).

Lemma Obj_get_none o k : Obj_get o k = None <-> ~ In k (keys o).
Proof.
  unfold keys.
  induction o as [|[k' v'] o IH]; cbn; [tauto|].
  destruct (String.eqb_spec k' k) as [->|Hne].
  - split; [discriminate | intros H; exfalso; apply H; now left].
  - rewrite IH. tauto.
Qed.

Lemma keys_set o k v :
  keys (Obj_set o k v)
  = match Obj_get o k with
    | Some _ => keys o
    | None => (keys o ++ [k])%list
    end.
Proof.
  unfold keys.
  induction o as [|[k' v'] o IH]; cbn; [reflexivity|].
  destruct (String.eqb_spec k' k) as [->|Hne]; cbn; [reflexivity|].
  rewrite IH. now destruct (Obj_get o k).
Qed.

Lemma keys_set_in o k v k' :
  In k' (keys (Obj_set o k v)) <-> k' = k \/ In k' (keys o).
Proof.
  rewrite keys_set. destruct (Obj_get o k) as [x|] eqn:Hget.
  - assert (In k (keys o)).
    { destruct (in_dec string_dec k (keys o)) as [Hin|Hout]; [exact Hin|].
      apply Obj_get_none in Hout. congruence. }
    split; [tauto | intros [->|Hin]; assumption].
  - rewrite in_app_iff. cbn. intuition congruence.
Qed.

Lemma keys_set_nodup o k v : NoDup (keys o) -> NoDup (keys (Obj_set o k v)).
Proof.
  intros Ho. rewrite keys_set. destruct (Obj_get o k) eqn:Hget; [exact Ho|].
  apply Obj_get_none in Hget.
  apply NoDup_app; [exact Ho | repeat constructor; intros [] |].
  intros x Hx [<-|[]]. contradiction.
Qed.

(** The sum of a measure of the values changes, on an assignment, by the
    measure of the new value minus that of the value it replaces. *)
Lemma measure_set (m : V -> Z) o k v :
  measure m (Obj_set o k v)
  = measure m o
    - match Obj_get o k with Some x => m x | None => 0 end
    + m v.
Proof.
  unfold measure.
  induction o as [|[k' v'] o IH]; cbn [Obj_set Obj_get map sum_list fold_right snd];
    [lia|].
  destruct (String.eqb_spec k' k) as [->|Hne];
    cbn [map sum_list fold_right snd]; [lia|].
  unfold sum_list in IH. rewrite IH. lia.
Qed.

End Objects.

Lemma sum_list_perm (l l' : list Z) :
  Permutation l l' -> sum_list l = sum_list l'.
Proof. unfold sum_list. induction 1; cbn [fold_right] in *; lia. Qed.

Lemma reduce_sum_push (ds : list Z) (d : Z) :
  reduce_sum (ds ++ [d]) = reduce_sum ds + d.
Proof. unfold reduce_sum. now rewrite fold_left_app. Qed.

(** *** Grouping *)

Lemma totals_from_keys planks : forall o,
  NoDup (keys o) ->
  NoDup (keys (totals_from o planks))
  /\ forall k, In k (keys (totals_from o planks))
               <-> In k (keys o) \/ In k (map Supabase.user_id planks).
Proof.
  induction planks as [|p planks IH]; intros o Ho; cbn; [tauto|].
  destruct (IH _ (keys_set_nodup o (Supabase.user_id p)
                    (UserStats.or_zero (Obj_get o (Supabase.user_id p))
                     + Supabase.duration_s p) Ho)) as [Hnd Hin].
  split; [exact Hnd|]. intros k. rewrite Hin, keys_set_in. intuition.
Qed.

Lemma stats_from_keys planks : forall o,
  NoDup (keys o) ->
  NoDup (keys (stats_from o planks))
  /\ forall k, In k (keys (stats_from o planks))
               <-> In k (keys o) \/ In k (map Supabase.user_id planks).
Proof.
  induction planks as [|p planks IH]; intros o Ho; cbn; [tauto|].
  destruct (IH _ (keys_set_nodup o (Supabase.user_id p)
                    (match Obj_get o (Supabase.user_id p) with
                     | Some ds => ds
                     | None => []
                     end ++ [Supabase.duration_s p])%list Ho)) as [Hnd Hin].
  split; [exact Hnd|]. intros k. rewrite Hin, keys_set_in. intuition.
Qed.

Lemma or_zero_value (x : option Z) :
  UserStats.or_zero x = match x with Some n => n | None => 0 end.
Proof.
  destruct x as [n|]; [|reflexivity]. cbn.
  now destruct (Z.eqb_spec n 0) as [->|].
Qed.

Lemma totals_from_sum planks : forall o,
  measure (fun t => t) (totals_from o planks)
  = measure (fun t => t) o + total_duration planks.
Proof.
  induction planks as [|p planks IH]; intros o;
    cbn [totals_from fold_left total_duration fold_right]; [lia|].
  fold (totals_from
          (Obj_set o (Supabase.user_id p)
             (UserStats.or_zero (Obj_get o (Supabase.user_id p))
              + Supabase.duration_s p)) planks).
  fold (total_duration planks).
  rewrite IH, measure_set, or_zero_value.
  destruct (Obj_get o (Supabase.user_id p)); lia.
Qed.

Lemma stats_from_sum planks : forall o,
  measure reduce_sum (stats_from o planks)
  = measure reduce_sum o + total_duration planks.
Proof.
  induction planks as [|p planks IH]; intros o;
    cbn [stats_from fold_left total_duration fold_right]; [lia|].
  fold (stats_from
          (Obj_set o (Supabase.user_id p)
             (match Obj_get o (Supabase.user_id p) with
              | Some ds => ds
              | None => []
              end ++ [Supabase.duration_s p])%list) planks).
  fold (total_duration planks).
  rewrite IH, measure_set, reduce_sum_push.
  destruct (Obj_get o (Supabase.user_id p)); cbn [reduce_sum fold_left]; lia.
Qed.

(** Every group of [stats] holds at least one duration. *)
Lemma stats_from_nonempty planks : forall o,
  Forall (fun g => snd g <> []) o ->
  Forall (fun g => snd g <> []) (stats_from o planks).
Proof.
  induction planks as [|p planks IH]; intros o Ho; cbn; [exact Ho|].
  apply IH. generalize (match Obj_get o (Supabase.user_id p) with
                        | Some ds => ds
                        | None => []
                        end).
  intros ds. induction Ho as [|[k v] o Hv Ho IHo]; cbn.
  - constructor; [|constructor]. cbn. now destruct ds.
  - destruct (String.eqb k (Supabase.user_id p)); constructor;
      try assumption. cbn. now destruct ds.
Qed.

Lemma stats_nonempty planks :
  Forall (fun g => snd g <> []) (Leaderboard.stats planks).
Proof. apply (stats_from_nonempty planks []). constructor. Qed.

Lemma fold_max (ds : list Z) : forall d,
  (fold_left Z.max ds d = d \/ In (fold_left Z.max ds d) ds)
  /\ d <= fold_left Z.max ds d
  /\ Forall (fun x => x <= fold_left Z.max ds d) ds.
Proof.
  induction ds as [|x ds IH]; intros d; cbn [fold_left].
  - split; [now left | split; [lia | constructor]].
  - destruct (IH (Z.max d x)) as (Hin & Hle & Hall).
    split; [|split; [lia | constructor; [lia | exact Hall]]].
    destruct Hin as [Heq|Hin]; [|right; now right].
    destruct (Z.max_spec d x) as [[_ Hmax]|[_ Hmax]]; rewrite Hmax in *.
    + right. left. symmetry. exact Heq.
    + left. exact Heq.
Qed.

(** On a group that is not empty [Math_max] is the largest duration of the
    group. *)
Lemma Math_max_spec (ds : list Z) :
  ds <> [] ->
  In (Math_max ds) ds /\ Forall (fun d => d <= Math_max ds) ds.
Proof.
  destruct ds as [|d ds]; [congruence|]. intros _. cbn [Math_max].
  destruct (fold_max ds d) as (Hin & Hle & Hall).
  split; [destruct Hin as [Heq|Hin]; [left; symmetry; exact Heq | now right]|].
  constructor; assumption.
Qed.

Lemma keys_identities (ks : list string) (planks : list Supabase.Plank) :
  NoDup ks ->
  (forall k, In k ks <-> In k (map Supabase.user_id planks)) ->
  Permutation ks (identities planks).
Proof.
  intros Hnd Hin. apply NoDup_Permutation; [exact Hnd | apply NoDup_nodup|].
  intros k. unfold identities. rewrite nodup_In. apply Hin.
Qed.

Lemma totals_identities planks :
  NoDup (keys (UserStats.totals planks))
  /\ Permutation (keys (UserStats.totals planks)) (identities planks).
Proof.
  destruct (totals_from_keys planks [] (NoDup_nil _)) as [Hnd Hin].
  split; [exact Hnd|]. apply keys_identities; [exact Hnd|].
  intros k. rewrite (Hin k). cbn. tauto.
Qed.

Lemma stats_identities planks :
  NoDup (keys (Leaderboard.stats planks))
  /\ Permutation (keys (Leaderboard.stats planks)) (identities planks).
Proof.
  destruct (stats_from_keys planks [] (NoDup_nil _)) as [Hnd Hin].
  split; [exact Hnd|]. apply keys_identities; [exact Hnd|].
  intros k. rewrite (Hin k). cbn. tauto.
Qed.

(** *** Boards *)

Lemma sorted_values {A : Type} (key : A -> Z) (l : list A) :
  StronglySorted (key_ge key) l -> descending (map key l).
Proof.
  unfold descending.
  induction 1 as [|x l Hl IH Hx]; cbn [map]; constructor; [exact IH|].
  apply Forall_forall. intros v Hv. apply in_map_iff in Hv.
  destruct Hv as (y & <- & Hy). rewrite Forall_forall in Hx. now apply Hx.
Qed.

Lemma filter_map {A C : Type} (g : A -> C) (p : C -> bool) (l : list A) :
  filter p (map g l) = map g (filter (fun x => p (g x)) l).
Proof.
  induction l as [|x l IH]; [reflexivity|]. cbn [map filter].
  destruct (p (g x)); cbn [map]; now rewrite IH.
Qed.

Section Board.
Context {B : Type} (mk : string * Z -> Z -> B).
Context (uid : B -> string) (value rank : B -> Z).
Hypothesis uid_mk : forall g i, uid (mk g i) = fst g.
Hypothesis value_mk : forall g i, value (mk g i) = snd g.
Hypothesis rank_mk : forall g i, rank (mk g i) = i + 1.

Lemma board_ok groups ids :
  Permutation (map fst groups) ids ->
  ranking_ok uid value rank groups ids (board mk groups).
Proof.
  intros Hids. unfold board, Array_mapi.
  pose proof (Array_sort_perm snd groups) as Hperm.
  pose proof (Array_sort_sorted snd groups) as Hsorted.
  unfold by_key_desc in Hperm, Hsorted.
  set (L := Array_sort (fun a b : string * Z => snd b - snd a) groups) in *.
  assert (Hranks : map rank (mapi_from 0 mk L) = ranks_upto (List.length ids)).
  { change 0 with (Z.of_nat 0).
    rewrite (mapi_from_ranks mk rank rank_mk). unfold ranks_upto.
    rewrite (Permutation_length Hperm), <- (Permutation_length Hids).
    now rewrite length_map. }
  assert (Hvalues : descending (map value (mapi_from 0 mk L))).
  { rewrite (mapi_from_project mk value snd value_mk).
    now apply sorted_values. }
  split.
  - exact Hranks.
  - exact Hvalues.
  - rewrite (mapi_from_project mk uid fst uid_mk).
    rewrite <- Hids. now apply Permutation_map.
  - rewrite (mapi_from_project mk (fun e => (uid e, value e)) (fun g => g)).
    + now rewrite map_id.
    + intros [u v] i. now rewrite uid_mk, value_mk.
  - apply larger_value_smaller_rank; [exact Hvalues|].
    rewrite Hranks. apply ranks_upto_increasing.
  - intros v.
    rewrite (mapi_from_filter mk (fun e => value e =? v)
               (fun g => snd g =? v) uid fst).
    + pose proof (Array_sort_stable snd v groups) as Hstable.
      unfold by_key_desc in Hstable. fold L in Hstable. now rewrite Hstable.
    + intros g i. now rewrite value_mk.
    + exact uid_mk.
Qed.

End Board.

Lemma group_keys {V : Type} (agg : V -> Z) (o : Obj V) :
  map fst (map (fun g => (fst g, agg (snd g))) o) = keys o.
Proof. unfold keys. rewrite map_map. reflexivity. Qed.

Lemma pair_pattern {V : Type} (agg : V -> Z) (o : Obj V) :
  map (fun '(user_id, x) => (user_id, agg x)) o
  = map (fun g => (fst g, agg (snd g))) o.
Proof. apply map_ext. now intros [u x]. Qed.

Lemma totalArr_board planks :
  Leaderboard.totalArr planks
  = board (fun e i => Leaderboard.Total.mkEntry (fst e) (snd e) (i + 1))
      (total_groups planks).
Proof.
  unfold Leaderboard.totalArr, board, total_groups.
  now rewrite pair_pattern.
Qed.

Lemma bestArr_board planks :
  Leaderboard.bestArr planks
  = board (fun e i => Leaderboard.Best.mkEntry (fst e) (snd e) (i + 1))
      (best_groups planks).
Proof.
  unfold Leaderboard.bestArr, board, best_groups.
  now rewrite pair_pattern.
Qed.

(** *** Ranks by index in [UserStats] *)


Lemma findIndex_at (pre post : list UserStats.Entry) (x : UserStats.Entry) :
  forall i,
    ~ In (UserStats.user_id x) (map UserStats.user_id pre) ->
    findIndex_from i
      (fun e => String.eqb (UserStats.user_id e) (UserStats.user_id x))
      (pre ++ x :: post)
    = i + Z.of_nat (List.length pre).
Proof.
  induction pre as [|y pre IH]; intros i Hout; cbn [app findIndex_from].
  - rewrite String.eqb_refl. cbn. lia.
  - destruct (String.eqb_spec (UserStats.user_id y) (UserStats.user_id x))
      as [Heq|Hne].
    + exfalso. apply Hout. left. exact Heq.
    + rewrite IH by (intros Hin; apply Hout; now right).
      cbn [List.length]. lia.
Qed.

Lemma ranks_by_index (l : list UserStats.Entry) : forall pre,
  NoDup (map UserStats.user_id (pre ++ l)) ->
  map (fun e => rank_in (pre ++ l) (UserStats.user_id e)) l
  = map Z.of_nat (seq (S (List.length pre)) (List.length l)).
Proof.
  induction l as [|x l IH]; intros pre Hnd; [reflexivity|].
  cbn [map seq List.length]. f_equal.
  - unfold rank_in, Array_findIndex. rewrite findIndex_at; [lia|].
    rewrite map_app in Hnd. cbn [map] in Hnd.
    apply NoDup_remove_2 in Hnd. intros Hin. apply Hnd.
    apply in_or_app. now left.
  - specialize (IH (pre ++ [x])%list).
    rewrite <- app_assoc in IH. cbn [app] in IH.
    rewrite IH by exact Hnd. rewrite length_app. cbn [List.length].
    now replace (List.length pre + 1)%nat with (S (List.length pre)) by lia.
Qed.

Lemma sorted_entries planks :
  let entries := Object_entries (UserStats.totals planks) in
  UserStats.sorted planks
  = Array_sort (by_key_desc UserStats.total_time)
      (map (fun g => UserStats.mkEntry (fst g) (snd g)) entries).
Proof.
  cbv zeta. unfold UserStats.sorted, by_key_desc. f_equal.
  apply map_ext. now intros [u t].
Qed.

Lemma sorted_ok planks :
  ranking_ok UserStats.user_id UserStats.total_time
    (fun e => rank_in (UserStats.sorted planks) (UserStats.user_id e))
    (Object_entries (UserStats.totals planks)) (identities planks)
    (UserStats.sorted planks).
Proof.
  destruct (totals_identities planks) as [Hnd Hids].
  pose proof (sorted_entries planks) as Hsorted. cbv zeta in Hsorted.
  set (entries := Object_entries (UserStats.totals planks)) in *.
  set (made := map (fun g => UserStats.mkEntry (fst g) (snd g)) entries) in *.
  pose proof (Array_sort_perm UserStats.total_time made) as Hperm.
  rewrite <- Hsorted in Hperm.
  assert (Hmade_ids : map UserStats.user_id made = keys (UserStats.totals planks)).
  { unfold made, keys. rewrite map_map. reflexivity. }
  assert (Huids : Permutation (map UserStats.user_id (UserStats.sorted planks))
                    (identities planks)).
  { rewrite <- Hids, <- Hmade_ids. now apply Permutation_map. }
  assert (Hranks :
            map (fun e => rank_in (UserStats.sorted planks) (UserStats.user_id e))
              (UserStats.sorted planks)
            = ranks_upto (List.length (identities planks))).
  { pose proof (ranks_by_index (UserStats.sorted planks) []) as Hidx.
    cbn [app List.length] in Hidx. rewrite Hidx.
    - unfold ranks_upto.
      now rewrite <- (Permutation_length Huids), length_map.
    - eapply Permutation_NoDup;
        [apply Permutation_sym, Huids | apply NoDup_nodup]. }
  assert (Hvalues : descending (map UserStats.total_time (UserStats.sorted planks))).
  { rewrite Hsorted. apply sorted_values, Array_sort_sorted. }
  split.
  - exact Hranks.
  - exact Hvalues.
  - exact Huids.
  - rewrite (Permutation_map _ Hperm). unfold made. rewrite map_map.
    cbn [UserStats.user_id UserStats.total_time].
    rewrite (map_ext _ (fun g => g)) by (now intros [u t]).
    now rewrite map_id.
  - apply larger_value_smaller_rank; [exact Hvalues|].
    rewrite Hranks. apply ranks_upto_increasing.
  - intros v. rewrite Hsorted, Array_sort_stable. unfold made.
    rewrite filter_map, map_map. reflexivity.
Qed.

(** C4.  For every collection of rows, with N distinct identities, each
    ranked output of the aggregator (the total board and the best board of
    the leaderboard, and the sorted totals of the personal statistics, whose
    rank is the index plus one) is sorted descending by aggregate value,
    has one entry per identity, carries the ranks 1, 2, ..., N in output
    order, gives a larger aggregate the smaller rank, and lists the entries
    of equal aggregate in grouping order. *)
Theorem ranks_are_positions (planks : list Supabase.Plank) :
  ranking_ok Leaderboard.Total.user_id Leaderboard.Total.total_time
    Leaderboard.Total.rank (total_groups planks) (identities planks)
    (Leaderboard.totalArr planks)
  /\ ranking_ok Leaderboard.Best.user_id Leaderboard.Best.best_time
       Leaderboard.Best.rank (best_groups planks) (identities planks)
       (Leaderboard.bestArr planks)
  /\ ranking_ok UserStats.user_id UserStats.total_time
       (fun e => rank_in (UserStats.sorted planks) (UserStats.user_id e))
       (Object_entries (UserStats.totals planks)) (identities planks)
       (UserStats.sorted planks).
Proof.
  destruct (stats_identities planks) as [_ Hids].
  split; [|split].
  - rewrite totalArr_board. apply board_ok; try reflexivity.
    unfold total_groups. now rewrite group_keys.
  - rewrite bestArr_board. apply board_ok; try reflexivity.
    unfold best_groups. now rewrite group_keys.
  - apply sorted_ok.
Qed.

(** C6.  For every collection of rows, the totals of all identities add
    up to the sum of all durations: on the total board of the leaderboard,
    in the [totals] object of the personal statistics, and in its sorted
    list. *)
Theorem totals_add_up (planks : list Supabase.Plank) :
  sum_list (map Leaderboard.Total.total_time (Leaderboard.totalArr planks))
  = total_duration planks
  /\ sum_list (map snd (Object_entries (UserStats.totals planks)))
     = total_duration planks
  /\ sum_list (map UserStats.total_time (UserStats.sorted planks))
     = total_duration planks.
Proof.
  assert (Htotals : sum_list (map snd (Object_entries (UserStats.totals planks)))
                    = total_duration planks).
  { pose proof (totals_from_sum planks []) as Hsum. exact Hsum. }
  split; [|split].
  - pose proof (stats_from_sum planks []) as Hsum.
    rewrite totalArr_board.
    unfold board, Array_mapi.
    rewrite (mapi_from_project _ Leaderboard.Total.total_time snd)
      by reflexivity.
    etransitivity;
      [apply sum_list_perm, Permutation_map,
         (Array_sort_perm snd (total_groups planks))|].
    unfold total_groups. rewrite map_map. exact Hsum.
  - exact Htotals.
  - rewrite sorted_entries.
    etransitivity;
      [apply sum_list_perm, Permutation_map, Array_sort_perm|].
    rewrite map_map. exact Htotals.
Qed.

(** *** Rank and percentile of one identity *)












End RankingFacts.
